(** * Bootstrap resampling (package [bootstrap]): a shallow embedding

    The Go package defines three aggregators (sum, average, quantile), a shared
    [quantile] helper and two resamplers ([BasicResampler],
    [PresampledResampler]).  The embedding keeps the shape of the source:

    - [float64] is Rocq's primitive binary64 float, so [+], [*], [/] and the
      comparisons are the IEEE 754 operations Go uses;
    - Go's [int] is a 64-bit integer, modelled as [Z]; no arithmetic in the
      package can leave the 64-bit range (loop counters, lengths, a remainder
      and counts bounded by a length), so no wrap-around is written out;
    - [[]float64] arguments are addresses into a store of arrays, because
      [QuantileAggregator.Aggregate] sorts the slice it is given in place;
    - a run-time panic is an explicit [Panic] result that keeps the state
      reached when it happened;
    - [rand.Source] and [sort.Float64s] belong to Go's standard library and are
      section variables with the contract their documentation gives. *)

From Stdlib Require Import ZArith Lia List Floats Uint63.
From stdpp Require Import base tactics option list numbers.

Set Default Proof Using "Type*".

(** ** float64 *)

Abbreviation float64 := PrimFloat.float (only parsing).

(** Bounds of Go's [int] on a 64-bit platform. *)
Definition minInt : Z := - 2 ^ 63.
Definition maxInt : Z := 2 ^ 63 - 1.

(** [float64(i)] for an [int] [i]: the nearest binary64 value. *)
Definition float64_of_int (i : Z) : float64 :=
  if (0 <=? i)%Z then PrimFloat.of_uint63 (Uint63.of_Z i)
  else if (i =? minInt)%Z then (- 9223372036854775808)%float
  else (- PrimFloat.of_uint63 (Uint63.of_Z (- i)))%float.

(** The integer part of a finite float, the fraction discarded (truncation
    towards zero), read off the mantissa and exponent. *)
Definition SFtrunc (x : spec_float) : option Z :=
  match x with
  | S754_zero _ => Some 0%Z
  | S754_finite s m e =>
      let a := match e with
               | Z0 => Zpos m
               | Zpos p => (Zpos m * 2 ^ Zpos p)%Z
               | Zneg p => (Zpos m / 2 ^ Zpos p)%Z
               end in
      Some (if s then (- a)%Z else a)
  | S754_infinity _ | S754_nan => None
  end.

(** [math.NaN()]. *)
Definition NaN : float64 := PrimFloat.nan.

(** [math.IsNaN]. *)
Definition IsNaN (f : float64) : bool := PrimFloat.is_nan f.

(** ** Panics and the state-and-panic monad *)

Inductive panic : Set :=
  | IndexOutOfRange      (* runtime error: index out of range *)
  | IntegerDivideByZero  (* runtime error: integer divide by zero *)
  | MakesliceLenOutOfRange. (* runtime error: makeslice: len out of range *)

Inductive result (A : Type) : Type :=
  | Ok (a : A)
  | Panic (p : panic).
Arguments Ok {A} a.
Arguments Panic {A} p.

(** A computation over a state [St]: it returns a value or panics, and in both
    cases leaves the state it reached. *)
Definition M (St A : Type) : Type := St -> result A * St.

Definition ret {St A} (a : A) : M St A := fun s => (Ok a, s).

Definition bind {St A B} (m : M St A) (k : A -> M St B) : M St B :=
  fun s => match m s with
           | (Ok a, s') => k a s'
           | (Panic p, s') => (Panic p, s')
           end.

Definition throw {St A} (p : panic) : M St A := fun s => (Panic p, s).

Definition gets {St A} (f : St -> A) : M St A := fun s => (Ok (f s), s).

Definition modify {St} (f : St -> St) : M St unit := fun s => (Ok tt, f s).

Definition of_result {St A} (r : result A) : M St A := fun s => (r, s).

Declare Scope go_scope.
Delimit Scope go_scope with go.
Notation "'let!' x ':=' m 'in' k" := (bind m (fun x => k))
  (at level 10, x pattern, m at level 100, k at level 200,
   format "'[v' 'let!'  x  ':='  m  'in' '/' k ']'") : go_scope.
Notation "'do!' m 'in' k" := (bind m (fun _ => k))
  (at level 10, m at level 100, k at level 200,
   format "'[v' 'do!'  m  'in' '/' k ']'") : go_scope.
Local Open Scope go_scope.

(** [for i := from; i < from + n; i++ { a = body i a }], the loop's variables
    threaded as [a]; a panic in the body leaves the loop. *)
Fixpoint for_range {St A} (from : Z) (n : nat) (body : Z -> A -> M St A) (a : A)
  : M St A :=
  match n with
  | O => ret a
  | S n' => let! a' := body from a in for_range (from + 1)%Z n' body a'
  end.

(** ** Indexing *)

(** [l[i]] with Go's bounds check. *)
Definition index {A} (l : list A) (i : Z) : result A :=
  if (0 <=? i)%Z then
    match l !! Z.to_nat i with
    | Some x => Ok x
    | None => Panic IndexOutOfRange
    end
  else Panic IndexOutOfRange.

(** [l[i] = x] with Go's bounds check. *)
Definition assign {A} (l : list A) (i : Z) (x : A) : result (list A) :=
  if ((0 <=? i) && (i <? Z.of_nat (length l)))%Z
  then Ok (<[Z.to_nat i := x]> l)
  else Panic IndexOutOfRange.

(** [a % b] on [int]: the remainder of the truncated division; a zero divisor
    panics. *)
Definition int_rem (a b : Z) : result Z :=
  if (b =? 0)%Z then Panic IntegerDivideByZero else Ok (Z.rem a b).

(** ** What the package takes from Go's platform and standard library *)

(** [rand.Source] ([NewSource], [Int63]), [sort.Float64s], and the value a
    conversion [int(f)] yields when [int] cannot represent [f] (the language
    leaves it to the implementation). *)
Class Platform : Type := {
  Source : Type;
  NewSource : Z -> Source;
  Int63 : Source -> Z * Source;
  Float64s : list float64 -> list float64;
  int_of_unrepresentable : float64 -> Z;
}.

(** [sort.Float64Slice.Less]: increasing order, NaN before every other value. *)
Definition Float64Slice_Less (x y : float64) : bool :=
  (x <? y)%float || (IsNaN x && negb (IsNaN y)).

(** [sort.Float64sAreSorted]. *)
Fixpoint Float64sAreSorted (x : list float64) : bool :=
  match x with
  | a :: (b :: _) as x' => negb (Float64Slice_Less b a) && Float64sAreSorted x'
  | _ => true
  end.

(** The documented contract of the library functions: [Int63] returns a
    non-negative 63-bit integer, [sort.Float64s] sorts its argument in
    increasing order (and keeps its elements). *)
Class PlatformSpec (P : Platform) : Prop := {
  Int63_range : forall s : Source, (0 <= (Int63 s).1 < 2 ^ 63)%Z;
  Float64s_Permutation : forall x, Float64s x ≡ₚ x;
  Float64s_sorted : forall x, Float64sAreSorted (Float64s x) = true;
}.

(** [int(f)]: truncation towards zero when [int] can represent the result. *)
Definition int_of_float64 `{Platform} (f : float64) : Z :=
  match SFtrunc (Prim2SF f) with
  | Some z => if ((minInt <=? z) && (z <=? maxInt))%Z then z
              else int_of_unrepresentable f
  | None => int_of_unrepresentable f
  end.

(** [r.Int63()] on the source held in the state. *)
Definition Source_Int63 `{Platform} : M Source Z :=
  fun s => let (n, s') := Int63 s in (Ok n, s').

(** ** The store of float slices *)

(** A [[]float64] value: the address of its array.  The package takes no
    sub-slice of a caller's slice, so an address stands for the whole array. *)
Abbreviation slice := nat (only parsing).
Abbreviation heap := (list (list float64)) (only parsing).

(** The elements of a slice; an address outside the store is the nil slice. *)
Definition deref (h : heap) (s : slice) : list float64 := default [] (h !! s).

(** The state of a method with a pointer receiver of type [R]: the receiver and
    the store. *)
Definition on_self {R A} (m : M R A) : M (R * heap) A :=
  fun w => let (res, r') := m w.1 in (res, (r', w.2)).

(** [make([]float64, n)]: a fresh zeroed array. *)
Definition make {R} (n : Z) : M (R * heap) slice :=
  fun w => if (n <? 0)%Z then (Panic MakesliceLenOutOfRange, w)
           else (Ok (length w.2), (w.1, w.2 ++ [replicate (Z.to_nat n) 0%float])).

(** [len(s)]. *)
Definition len {R} (s : slice) : M (R * heap) Z :=
  gets (fun w => Z.of_nat (length (deref w.2 s))).

(** [s[i]]. *)
Definition load {R} (s : slice) (i : Z) : M (R * heap) float64 :=
  fun w => (index (deref w.2 s) i, w).

(** [s[i] = x]. *)
Definition store {R} (s : slice) (i : Z) (x : float64) : M (R * heap) unit :=
  fun w => match assign (deref w.2 s) i x with
           | Ok l => (Ok tt, (w.1, <[s := l]> w.2))
           | Panic p => (Panic p, w)
           end.

(** A call that is handed the slice [s]: it reads and writes the elements of
    [s] and nothing else in the store. *)
Definition on_slice {R A} (s : slice) (m : M (list float64) A) : M (R * heap) A :=
  fun w => let (res, l) := m (deref w.2 s) in (res, (w.1, <[s := l]> w.2)).

(** ** quantile *)

(** [quantile]: the [q] quantile in [vals]. *)
Definition quantile `{Platform} (vals : list float64) (q : float64) : result float64 :=
  let length := Z.of_nat (length vals) in
  if (length =? 0)%Z then Ok NaN
  else
    let index_ := int_of_float64 (q * float64_of_int (length - 1))%float in
    index vals index_.

(** ** Aggregators *)

(** The interface [Aggregator]: one method, which is handed a slice. *)
Record Aggregator : Type := { Aggregate : M (list float64) float64 }.

Module SumAggregator.
Definition Aggregate : M (list float64) float64 :=
  gets (fun values => fold_left PrimFloat.add values 0%float).
End SumAggregator.

Definition NewSumAggregator : Aggregator :=
  {| Aggregate := SumAggregator.Aggregate |}.

Module AverageAggregator.
Definition Aggregate : M (list float64) float64 :=
  gets (fun values =>
    if (Z.of_nat (length values) =? 0)%Z then 0%float
    else
      let result := fold_left PrimFloat.add values 0%float in
      (result / float64_of_int (Z.of_nat (length values)))%float).
End AverageAggregator.

Definition NewAverageAggregator : Aggregator :=
  {| Aggregate := AverageAggregator.Aggregate |}.

Module QuantileAggregator.
Definition Aggregate `{Platform} (a_quantile : float64) : M (list float64) float64 :=
  do! modify Float64s in
  fun values => (quantile values a_quantile, values).
End QuantileAggregator.

Definition NewQuantileAggregator `{Platform} (quantile : float64) : Aggregator :=
  {| Aggregate := QuantileAggregator.Aggregate quantile |}.

(** ** BasicResampler *)

Module BasicResampler.
Record t `{Platform} : Type := {
  aggregator : Aggregator;
  iterations : Z;
  sampleAggregates : list float64;
  r : Source;
}.

Definition set_sampleAggregates `{Platform} (f : list float64 -> list float64)
    (x : t) : t :=
  {| aggregator := aggregator x; iterations := iterations x;
     sampleAggregates := f (sampleAggregates x); r := r x |}.

(** [r.r.Int63()]. *)
Definition r_Int63 `{Platform} : M t Z :=
  fun x => let (n, s') := Int63 (r x) in
           (Ok n, {| aggregator := aggregator x; iterations := iterations x;
                     sampleAggregates := sampleAggregates x; r := s' |}).

Definition Resample `{Platform} (values : slice) : M (t * heap) unit :=
  let! length := len values in
  let! scratch := make length in
  let! iterations := on_self (gets iterations) in
  do! for_range 0 (Z.to_nat iterations) (fun _ _ =>
        do! for_range 0 (Z.to_nat length) (fun i _ =>
              let! n := on_self r_Int63 in
              let! k := of_result (int_rem n length) in
              let! v := load values k in
              store scratch i v) tt in
        let! a := on_self (gets aggregator) in
        let! x := on_slice scratch (Aggregate a) in
        on_self (modify (set_sampleAggregates (fun s => s ++ [x])))) tt in
  on_self (modify (set_sampleAggregates Float64s)).

Definition Quantile `{Platform} (x : t) (q : float64) : result float64 :=
  quantile (sampleAggregates x) q.

Definition Reset `{Platform} : M t unit :=
  modify (set_sampleAggregates (take 0)).
End BasicResampler.

Definition NewBasicResampler `{Platform} (aggregator : Aggregator) (iterations : Z)
  : BasicResampler.t :=
  {| BasicResampler.aggregator := aggregator;
     BasicResampler.iterations := iterations;
     BasicResampler.sampleAggregates := [];
     BasicResampler.r := NewSource 0 |}.

(** ** PresampledResampler *)

Module PresampledResampler.
Record t : Type := {
  aggregator : Aggregator;
  iterations : Z;
  sampleAggregates : list float64;
  samples : list (list Z);
}.

Definition set_sampleAggregates (f : list float64 -> list float64) (x : t) : t :=
  {| aggregator := aggregator x; iterations := iterations x;
     sampleAggregates := f (sampleAggregates x); samples := samples x |}.

Definition Resample `{Platform} (values : slice) : M (t * heap) unit :=
  let! length := len values in
  let! scratch := make length in
  let! iterations := on_self (gets iterations) in
  do! for_range 0 (Z.to_nat iterations) (fun i _ =>
        do! for_range 0 (Z.to_nat length) (fun j _ =>
              let! v := load values j in
              let! row := on_self (fun x => (index (samples x) i, x)) in
              let! c := of_result (index row j) in
              store scratch j (v * float64_of_int c)%float) tt in
        let! a := on_self (gets aggregator) in
        let! x := on_slice scratch (Aggregate a) in
        on_self (modify (set_sampleAggregates (fun s => s ++ [x])))) tt in
  on_self (modify (set_sampleAggregates Float64s)).

Definition Quantile `{Platform} (x : t) (q : float64) : result float64 :=
  quantile (sampleAggregates x) q.

Definition Reset : M t unit :=
  modify (set_sampleAggregates (take 0)).
End PresampledResampler.

(** One row of the table: [numValues] draws, each counted at its column. *)
Definition sampledInts_row `{Platform} (numValues : Z) : M Source (list Z) :=
  if (numValues <? 0)%Z then throw MakesliceLenOutOfRange
  else
    let sampledInts := replicate (Z.to_nat numValues) 0%Z in
    for_range 0 (length sampledInts) (fun _ sampledInts =>
      let! n := Source_Int63 in
      let! k := of_result (int_rem n numValues) in
      let! c := of_result (index sampledInts k) in
      of_result (assign sampledInts k (c + 1)%Z)) sampledInts.

Definition NewPresampledResampler `{Platform} (aggregator : Aggregator)
    (iterations numValues : Z) : result PresampledResampler.t :=
  let r := NewSource 0 in
  if (iterations <? 0)%Z then Panic MakesliceLenOutOfRange
  else
    let samples := replicate (Z.to_nat iterations) [] in
    match for_range 0 (length samples) (fun i samples =>
            let! sampledInts := sampledInts_row numValues in
            of_result (assign samples i sampledInts)) samples r with
    | (Ok samples, _) =>
        Ok {| PresampledResampler.aggregator := aggregator;
              PresampledResampler.iterations := iterations;
              PresampledResampler.sampleAggregates := [];
              PresampledResampler.samples := samples |}
    | (Panic p, _) => Panic p
    end.

(** ** A concrete platform, to run the definitions *)

(** Insertion sort with [Float64Slice_Less]. *)
Fixpoint insert_sorted (a : float64) (x : list float64) : list float64 :=
  match x with
  | [] => [a]
  | b :: x' => if Float64Slice_Less a b then a :: b :: x' else b :: insert_sorted a x'
  end.

Definition insertion_sort (x : list float64) : list float64 :=
  foldr insert_sorted [] x.

(** A 63-bit linear congruential generator. *)
Definition lcg_Int63 (s : Z) : Z * Z :=
  let s' := ((s * 6364136223846793005 + 1442695040888963407) mod 2 ^ 63)%Z in
  (s', s').

(** [int(f)] for an unrepresentable [f] as amd64 computes it. *)
Definition sample_platform : Platform :=
  {| Source := Z;
     NewSource := fun seed => seed;
     Int63 := lcg_Int63;
     Float64s := insertion_sort;
     int_of_unrepresentable := fun _ => minInt |}.


(** ** Predicates used in the statements *)

(** What a [Resample] that returns leaves in [sampleAggregates]: the
    collection [old] it found, [iterations] more statistics, all of it passed
    through [sort.Float64s]. *)
Definition appended `{Platform} (iterations : Z) (old new : list float64) : Prop :=
  exists stats : list float64,
    length stats = Z.to_nat iterations /\ new = Float64s (old ++ stats).

(** The collection [new] holds every element of [old] and exactly [iterations]
    further ones, and it is sorted. *)
Definition accumulates (iterations : Z) (old new : list float64) : Prop :=
  (exists stats : list float64,
     length stats = Z.to_nat iterations /\ new ≡ₚ old ++ stats)
  /\ Float64sAreSorted new = true
  /\ Z.of_nat (length new) = (Z.of_nat (length old) + iterations)%Z.

(** The fields of a [BasicResampler] other than its random source. *)
Definition BasicResampler_fixed `{Platform} (x : BasicResampler.t)
  : Aggregator * Z * list float64 :=
  (BasicResampler.aggregator x, BasicResampler.iterations x,
   BasicResampler.sampleAggregates x).

(** ** Sample runs, on the sample platform *)

(** A store holding the slice [[0, 1, 2, 3, 4]] at address 0 and an empty slice
    at address 1. *)
Definition sample_heap : heap := [[0; 1; 2; 3; 4]%float; []].

Definition sample_basic (a : Aggregator) (iterations : Z)
  : BasicResampler.t (H := sample_platform) :=
  NewBasicResampler (H := sample_platform) a iterations.

Definition sample_presampled (a : Aggregator) (iterations numValues : Z)
  : PresampledResampler.t :=
  match NewPresampledResampler (H := sample_platform) a iterations numValues with
  | Ok x => x
  | Panic _ =>
      {| PresampledResampler.aggregator := a;
         PresampledResampler.iterations := 0;
         PresampledResampler.sampleAggregates := [];
         PresampledResampler.samples := [] |}
  end.

(** The sum of a row of counts. *)
Definition row_sum (row : list Z) : Z := foldr Z.add 0%Z row.

(** A row of the presampled table for [numValues] positions: [numValues]
    non-negative counts that add up to [numValues]. *)
Definition row_ok (numValues : Z) (row : list Z) : Prop :=
  Z.of_nat (length row) = numValues
  /\ Forall (fun c => (0 <= c)%Z) row
  /\ row_sum row = numValues.

(** The presampled table: [iterations] such rows. *)
Definition table_ok (iterations numValues : Z) (samples : list (list Z)) : Prop :=
  Z.of_nat (length samples) = iterations /\ Forall (row_ok numValues) samples.

(** The scratch slice the presampled resampler builds from [values] and one
    row of counts: position [j] holds [values[j] * float64(row[j])]. *)
Definition scaled (values : list float64) (row : list Z) : list float64 :=
  zip_with (fun v c => (v * float64_of_int c)%float) values row.

(** An aggregator cannot change the length of the slice it is handed (a Go
    callee receives the slice header by value). *)
Definition keeps_length (a : Aggregator) : Prop :=
  forall values, length (Aggregate a values).2 = length values.

(** The aggregates of a sequence of scratch slices, in order, up to the first
    panic. *)
Fixpoint aggregate_each (a : Aggregator) (scratches : list (list float64))
  : result (list float64) :=
  match scratches with
  | [] => Ok []
  | scratch :: rest =>
      match (Aggregate a scratch).1 with
      | Ok x =>
          match aggregate_each a rest with
          | Ok xs => Ok (x :: xs)
          | Panic p => Panic p
          end
      | Panic p => Panic p
      end
  end.

(** [PresampledResampler.Resample] as the specification words it: for each
    row of the table, scale the values by the row's counts and aggregate; then
    append the aggregates and sort. *)
Definition PresampledResampler_Resample_spec `{Platform}
    (x : PresampledResampler.t) (values : list float64) : result (list float64) :=
  match aggregate_each (PresampledResampler.aggregator x)
          (map (scaled values) (PresampledResampler.samples x)) with
  | Ok stats => Ok (Float64s (PresampledResampler.sampleAggregates x ++ stats))
  | Panic p => Panic p
  end.

(** One round of [PresampledResampler.Resample] (the body of its outer loop),
    named for the proofs. *)
Definition PresampledResampler_round `{Platform} (values scratch : slice) (length : nat)
    (i : Z) : M (PresampledResampler.t * heap) unit :=
  do! for_range 0 length (fun j (_ : unit) =>
        let! v := load values j in
        let! row := on_self (fun x => (index (PresampledResampler.samples x) i, x)) in
        let! c := of_result (index row j) in
        store scratch j (v * float64_of_int c)%float) tt in
  let! a := on_self (gets PresampledResampler.aggregator) in
  let! x0 := on_slice scratch (Aggregate a) in
  on_self (modify (PresampledResampler.set_sampleAggregates (fun s => s ++ [x0]))).


(** One round of [BasicResampler.Resample] (the body of its outer loop), named
    for the proofs. *)
Definition BasicResampler_round `{Platform} (values scratch : slice) (length : nat)
  : M (BasicResampler.t * heap) unit :=
  do! for_range 0 length (fun i (_ : unit) =>
        let! n := on_self BasicResampler.r_Int63 in
        let! k := of_result (int_rem n (Z.of_nat length)) in
        let! v := load values k in
        store scratch i v) tt in
  let! a := on_self (gets BasicResampler.aggregator) in
  let! x0 := on_slice scratch (Aggregate a) in
  on_self (modify (BasicResampler.set_sampleAggregates (fun s => s ++ [x0]))).

(** [rel R m1 m2 s1 s2]: the two runs end with the same value or panic, in
    states related by [R]. *)
Definition rel {S1 S2 A} (R : S1 -> S2 -> Prop) (m1 : M S1 A) (m2 : M S2 A)
    (s1 : S1) (s2 : S2) : Prop :=
  (m1 s1).1 = (m2 s2).1 /\ R (m1 s1).2 (m2 s2).2.

(** Two stores that agree on the values slice and on the scratch slice. *)
Definition same_slices (v1 c1 v2 c2 : slice) (h1 h2 : heap) : Prop :=
  deref h1 v1 = deref h2 v2 /\ deref h1 c1 = deref h2 c2
  /\ c1 < length h1 /\ c2 < length h2 /\ v1 <> c1 /\ v2 <> c2.

(** A sequence of [Resample] calls on one resampler, one per input slice; a
    panic ends it. *)
Fixpoint BasicResampler_Resample_each `{Platform} (inputs : list slice)
  : M (BasicResampler.t * heap) unit :=
  match inputs with
  | [] => ret tt
  | values :: rest =>
      do! BasicResampler.Resample values in BasicResampler_Resample_each rest
  end.

Fixpoint PresampledResampler_Resample_each `{Platform} (inputs : list slice)
  : M (PresampledResampler.t * heap) unit :=
  match inputs with
  | [] => ret tt
  | values :: rest =>
      do! PresampledResampler.Resample values in PresampledResampler_Resample_each rest
  end.

(** The inputs of two runs, each in its own store, hold the same values. *)
Definition same_inputs (h1 h2 : heap) (inputs1 inputs2 : list slice) : Prop :=
  Forall2 (fun v1 v2 => v1 < length h1 /\ v2 < length h2 /\ deref h1 v1 = deref h2 v2)
    inputs1 inputs2.

(** A call is rejected when it panics and leaves the resampler as it found
    it. *)
Definition rejected {R} (x : R) (o : result unit * (R * heap)) : Prop :=
  (exists p, o.1 = Panic p) /\ o.2.1 = x.

(** ** Values of binary64 numbers, for the proofs about [quantile] *)

(** [m * 2^e <= k]: the value of a mantissa and exponent against an integer,
    with both sides scaled by [2^2200] so that no power has a negative
    exponent (binary64 exponents, and sums of two of them, are above
    [-2200]). *)
Definition val_le (m e k : Z) : Prop :=
  (m * 2 ^ (e + 2200) <= k * 2 ^ 2200)%Z.

(** What [n] right shifts of [M] leave in a [shr_record]: the mantissa
    [M / 2^n], and clear rounding bits when the shift loses nothing. *)
Definition shr_inv (M n : Z) (mrs : shr_record) : Prop :=
  shr_m mrs = (M / 2 ^ n)%Z
  /\ ((M mod 2 ^ n)%Z = 0%Z -> shr_r mrs = false /\ shr_s mrs = false).

(** A non-negative binary64 number of value at most [k], as [Prim2SF] gives
    it. *)
Definition SF_le (x : spec_float) (k : Z) : Prop :=
  match x with
  | S754_zero _ => True
  | S754_finite false m e => val_le (Zpos m) e k /\ (-2200 <= e)%Z
  | _ => False
  end.

(** ** Predicates used in the further properties *)

(** The aggregator returns (does not panic) on every slice of [n] elements. *)
Definition total_on (a : Aggregator) (n : nat) : Prop :=
  forall values, length values = n -> exists x, (Aggregate a values).1 = Ok x.

(** The state of a source after [n] calls of [Int63]. *)
Definition Int63_iter `{Platform} (n : nat) (s : Source) : Source :=
  Nat.iter n (fun s => (Int63 s).2) s.

(** [x] is the aggregate of some resample of [values]: a sequence of
    [len(values)] elements, each taken from [values]. *)
Definition resample_of (a : Aggregator) (values : list float64) (x : float64) : Prop :=
  exists l, length l = length values /\ Forall (fun v => v ∈ values) l
            /\ (Aggregate a l).1 = Ok x.

(** ** The earlier Resampler (src/unnamed/part_000) *)

Module Resampler.
Record t `{Platform} : Type := {
  aggregator : Aggregator;
  sampleAggregates : list float64;
  r : Source;
}.

Definition set_sampleAggregates `{Platform} (f : list float64 -> list float64)
    (x : t) : t :=
  {| aggregator := aggregator x; sampleAggregates := f (sampleAggregates x); r := r x |}.

(** [r.r.Int63()]. *)
Definition r_Int63 `{Platform} : M t Z :=
  fun x => let (n, s') := Int63 (r x) in
           (Ok n, {| aggregator := aggregator x;
                     sampleAggregates := sampleAggregates x; r := s' |}).

Definition Resample `{Platform} (values : slice) (iterations : Z) : M (t * heap) unit :=
  let! length := len values in
  let! scratch := make length in
  do! for_range 0 (Z.to_nat iterations) (fun _ _ =>
        do! for_range 0 (Z.to_nat length) (fun i _ =>
              let! n := on_self r_Int63 in
              let! k := of_result (int_rem n length) in
              let! v := load values k in
              store scratch i v) tt in
        let! a := on_self (gets aggregator) in
        let! x := on_slice scratch (Aggregate a) in
        on_self (modify (set_sampleAggregates (fun s => s ++ [x])))) tt in
  on_self (modify (set_sampleAggregates Float64s)).

Definition Quantile `{Platform} (x : t) (q : float64) : result float64 :=
  let length := Z.of_nat (length (sampleAggregates x)) in
  let index_ := int_of_float64 (q * float64_of_int (length - 1))%float in
  index (sampleAggregates x) index_.
End Resampler.

Definition NewResampler `{Platform} (aggregator : Aggregator) : Resampler.t :=
  {| Resampler.aggregator := aggregator;
     Resampler.sampleAggregates := [];
     Resampler.r := NewSource 0 |}.

(** The [BasicResampler] with the fields of a [Resampler] and the given
    iteration count. *)
Definition BasicResampler_of `{Platform} (iterations : Z) (x : Resampler.t)
  : BasicResampler.t :=
  {| BasicResampler.aggregator := Resampler.aggregator x;
     BasicResampler.iterations := iterations;
     BasicResampler.sampleAggregates := Resampler.sampleAggregates x;
     BasicResampler.r := Resampler.r x |}.

(** The state of a [BasicResampler] run that matches a state of a [Resampler]
    run with [iterations] iterations. *)
Definition as_basic `{Platform} (iterations : Z)
    (w1 : Resampler.t * list (list float64))
    (w2 : BasicResampler.t * list (list float64)) : Prop :=
  w2 = (BasicResampler_of iterations w1.1, w1.2).

(** * Reasoning about computations *)

(** [wp m Q s]: running [m] from [s] ends, with a value or a panic, in a
    result and state that satisfy [Q]. *)
Definition wp {St A} (m : M St A) (Q : result A -> St -> Prop) (s : St) : Prop :=
  Q (m s).1 (m s).2.

(** The postcondition [I] on a value, [E] on a panic. *)
Definition post {St A} (I : A -> St -> Prop) (E : panic -> St -> Prop)
    (res : result A) (s : St) : Prop :=
  match res with Ok a => I a s | Panic p => E p s end.

Lemma wp_eq {St A} (m : M St A) Q s res s' :
  m s = (res, s') -> wp m Q s <-> Q res s'.
Proof. unfold wp. by intros ->. Qed.

Lemma wp_mono {St A} (m : M St A) (Q Q' : result A -> St -> Prop) s :
  (forall res s', Q res s' -> Q' res s') -> wp m Q s -> wp m Q' s.
Proof. unfold wp. auto. Qed.

Lemma wp_ret {St A} (a : A) (Q : result A -> St -> Prop) s :
  Q (Ok a) s -> wp (ret a) Q s.
Proof. done. Qed.

Lemma wp_bind {St A B} (m : M St A) (k : A -> M St B) Q s :
  wp m (post (fun a s' => wp (k a) Q s') (fun p s' => Q (Panic p) s')) s ->
  wp (bind m k) Q s.
Proof. unfold wp, bind, post. by destruct (m s) as [[a|p] s']. Qed.

Lemma wp_for_range {St A} (I : nat -> A -> St -> Prop) (E : panic -> St -> Prop)
    from n (body : Z -> A -> M St A) a s :
  I 0 a s ->
  (forall k a s, k < n -> I k a s ->
     wp (body (from + Z.of_nat k)%Z a) (post (I (S k)) E) s) ->
  wp (for_range from n body a) (post (I n) E) s.
Proof.
  revert I from a s. induction n as [|n IH]; intros I from a s H0 Hstep.
  - done.
  - simpl. apply wp_bind.
    pose proof (Hstep 0 a s) as Hhd. rewrite Z.add_0_r in Hhd.
    eapply wp_mono; [|apply Hhd; [lia|done]].
    intros [a'|p] s'; simpl; [|done]. intros H1.
    apply (IH (fun k => I (S k))); [done|].
    intros k a0 s0 Hk HI.
    replace (from + 1 + Z.of_nat k)%Z with (from + Z.of_nat (S k))%Z by lia.
    apply Hstep; [lia|done].
Qed.

(** A property of the state that every step keeps is kept by the loop,
    whether it ends or panics. *)
Lemma wp_for_range_keeps {St A} (I : St -> Prop) from n (body : Z -> A -> M St A) a s :
  I s ->
  (forall i a s, I s -> wp (body i a) (fun _ s' => I s') s) ->
  wp (for_range from n body a) (fun _ s' => I s') s.
Proof.
  intros H0 Hstep.
  eapply wp_mono; [|apply (wp_for_range (fun _ _ => I) (fun _ => I)); [done|]].
  - by intros [?|?] ?.
  - intros k a0 s0 _ HI. eapply wp_mono; [|by apply Hstep]. by intros [?|?] ?.
Qed.

Lemma for_range_S {St A} from n (body : Z -> A -> M St A) a :
  for_range from (S n) body a
  = bind (body from a) (for_range (from + 1)%Z n body).
Proof. done. Qed.

Lemma index_Some {A} (l : list A) (i : nat) x :
  l !! i = Some x -> index l (Z.of_nat i) = Ok x.
Proof.
  intros H. unfold index. rewrite Nat2Z.id, H.
  by destruct (Z.leb_spec 0 (Z.of_nat i)); [|lia].
Qed.

Lemma index_ge {A} (l : list A) (i : Z) :
  (Z.of_nat (length l) <= i)%Z -> index l i = Panic IndexOutOfRange.
Proof.
  intros H. unfold index. destruct (0 <=? i)%Z; [|done].
  rewrite lookup_ge_None_2; [done|lia].
Qed.

Lemma index_lt {A} (l : list A) (i : Z) :
  (0 <= i < Z.of_nat (length l))%Z -> exists x, index l i = Ok x /\ l !! Z.to_nat i = Some x.
Proof.
  intros H. destruct (lookup_lt_is_Some_2 l (Z.to_nat i)) as [x Hx]; [lia|].
  exists x. split; [|done]. rewrite <- (Z2Nat.id i) by lia. by apply index_Some.
Qed.

Lemma assign_lt {A} (l : list A) (i : nat) x :
  i < length l -> assign l (Z.of_nat i) x = Ok (<[i := x]> l).
Proof.
  intros H. unfold assign. rewrite Nat2Z.id.
  destruct (Z.leb_spec 0 (Z.of_nat i)); [|lia].
  by destruct (Z.ltb_spec (Z.of_nat i) (Z.of_nat (length l))); [|lia].
Qed.


(** * The order of [sort.Float64s] and the sample platform *)

Lemma SFcompare_antisym x y :
  SFcompare y x = CompOpp <$> SFcompare x y.
Proof.
  destruct x as [[]|[]| |[] mx ex], y as [[]|[]| |[] my ey]; simpl; try done.
  - rewrite (Z.compare_antisym ey ex). destruct (ey ?= ex)%Z; simpl; try done.
    do 2 f_equal. exact (ZC4 my mx).
  - rewrite (Z.compare_antisym ey ex). destruct (ey ?= ex)%Z; simpl; try done.
    f_equal. exact (ZC4 my mx).
Qed.

Lemma SFcompare_refl x : x <> S754_nan -> SFcompare x x = Some Eq.
Proof.
  destruct x as [[]|[]| |[] mx ex]; simpl; try done; intros _;
    rewrite Z.compare_refl; f_equal;
    change (PosDef.Pos.compare_cont Eq mx mx) with (Pos.compare_cont Eq mx mx);
    by rewrite Pos.compare_cont_refl.
Qed.

Lemma IsNaN_Prim2SF (x : float64) : IsNaN x = true <-> Prim2SF x = S754_nan.
Proof.
  unfold IsNaN, is_nan. rewrite FloatAxioms.eqb_spec. unfold SFeqb. split.
  - intros H. destruct (Prim2SF x) eqn:E; [| |done|];
      by rewrite SFcompare_refl in H.
  - by intros ->.
Qed.

Lemma ltb_not_NaN (x y : float64) :
  (x <? y)%float = true -> IsNaN x = false /\ IsNaN y = false.
Proof.
  rewrite FloatAxioms.ltb_spec. unfold SFltb. intros H.
  split; apply not_true_is_false; rewrite IsNaN_Prim2SF; intros E; rewrite E in H;
    [done|by destruct (Prim2SF x)].
Qed.

Lemma ltb_asym (x y : float64) : (x <? y)%float = true -> (y <? x)%float = false.
Proof.
  rewrite !FloatAxioms.ltb_spec. unfold SFltb. rewrite (SFcompare_antisym (Prim2SF x)).
  by destruct (SFcompare (Prim2SF x) (Prim2SF y)) as [[]|].
Qed.

Lemma Float64Slice_Less_asym (x y : float64) :
  Float64Slice_Less x y = true -> Float64Slice_Less y x = false.
Proof.
  unfold Float64Slice_Less. intros H.
  apply orb_true_iff in H as [H|H].
  - rewrite (ltb_asym _ _ H). destruct (ltb_not_NaN _ _ H) as [_ ->]. done.
  - apply andb_true_iff in H as [Hx Hy]. rewrite Hx.
    destruct (y <? x)%float eqn:E.
    + apply ltb_not_NaN in E as [_ E]. congruence.
    + simpl. by rewrite andb_false_r.
Qed.

Lemma insert_sorted_Permutation a x : insert_sorted a x ≡ₚ a :: x.
Proof.
  induction x as [|b x IH]; simpl; [done|].
  destruct (Float64Slice_Less a b); [done|]. rewrite IH. apply Permutation_swap.
Qed.

Lemma insertion_sort_Permutation x : insertion_sort x ≡ₚ x.
Proof.
  induction x as [|a x IH]; simpl; [done|].
  by rewrite insert_sorted_Permutation, IH.
Qed.

Lemma insert_sorted_sorted a x :
  Float64sAreSorted x = true -> Float64sAreSorted (insert_sorted a x) = true.
Proof.
  induction x as [|b x IH]; [done|]. intros Hs. simpl insert_sorted.
  destruct (Float64Slice_Less a b) eqn:Hab.
  - change (negb (Float64Slice_Less b a) && Float64sAreSorted (b :: x) = true).
    by rewrite (Float64Slice_Less_asym _ _ Hab), Hs.
  - destruct x as [|c x].
    + simpl. by rewrite Hab.
    + change (negb (Float64Slice_Less c b) && Float64sAreSorted (c :: x) = true) in Hs.
      apply andb_true_iff in Hs as [Hcb Hs]. specialize (IH Hs).
      simpl insert_sorted in *. destruct (Float64Slice_Less a c).
      * change (negb (Float64Slice_Less a b) && Float64sAreSorted (a :: c :: x) = true).
        by rewrite Hab, IH.
      * change (negb (Float64Slice_Less c b) && Float64sAreSorted (c :: insert_sorted a x) = true).
        by rewrite Hcb, IH.
Qed.

Lemma insertion_sort_sorted x : Float64sAreSorted (insertion_sort x) = true.
Proof.
  induction x as [|a x IH]; [done|]. by apply insert_sorted_sorted.
Qed.

Lemma sample_platform_spec : PlatformSpec sample_platform.
Proof.
  split.
  - intros s. simpl. apply Z.mod_pos_bound. lia.
  - apply insertion_sort_Permutation.
  - apply insertion_sort_sorted.
Qed.

(** * The two [Resample] methods *)

Lemma make_nat {R} (n : nat) (w : R * heap) :
  make (Z.of_nat n) w = (Ok (length w.2), (w.1, w.2 ++ [replicate n 0%float])).
Proof.
  unfold make. destruct (Z.ltb_spec (Z.of_nat n) 0); [lia|]. by rewrite Nat2Z.id.
Qed.

Lemma wp_make_nat {R} (n : nat) (Q : result slice -> R * heap -> Prop) w :
  Q (Ok (length w.2)) (w.1, w.2 ++ [replicate n 0%float]) -> wp (make (Z.of_nat n)) Q w.
Proof. unfold wp. by rewrite make_nat. Qed.

Ltac wp_go := apply wp_bind; unfold wp at 1; simpl.

Section Appends.
Context `{P : Platform}.

Lemma BasicResampler_draw_keeps (values scratch : slice) (length : Z) n c w :
  BasicResampler_fixed w.1 = c ->
  wp (for_range 0 n (fun i (_ : unit) =>
        let! n := on_self BasicResampler.r_Int63 in
        let! k := of_result (int_rem n length) in
        let! v := load values k in
        store scratch i v) tt)
     (fun _ w' => BasicResampler_fixed w'.1 = c) w.
Proof.
  intros Hc. apply (wp_for_range_keeps (fun w => BasicResampler_fixed w.1 = c)); [done|].
  clear. intros i [] [x h] Hc. simpl in Hc.
  unfold wp, bind, on_self, BasicResampler.r_Int63, of_result, load, store. simpl.
  destruct (Int63 (BasicResampler.r x)) as [d s']. simpl.
  destruct (int_rem d length) as [k|?]; simpl; [|done].
  destruct (index (deref h values) k) as [v|?]; simpl; [|done].
  by destruct (assign (deref h scratch) i v).
Qed.

Lemma BasicResampler_Resample_post (values : slice) x h :
  wp (BasicResampler.Resample values)
     (post (fun _ w =>
              appended (BasicResampler.iterations x)
                (BasicResampler.sampleAggregates x)
                (BasicResampler.sampleAggregates w.1)
              /\ BasicResampler.iterations w.1 = BasicResampler.iterations x
              /\ BasicResampler.aggregator w.1 = BasicResampler.aggregator x)
           (fun _ _ => True)) (x, h).
Proof.
  unfold BasicResampler.Resample.
  wp_go. apply wp_bind, wp_make_nat. simpl.
  wp_go. wp_go.
  eapply wp_mono; [|apply (wp_for_range
    (fun k _ w => exists stats, length stats = k /\
       BasicResampler_fixed w.1
       = (BasicResampler.aggregator x, BasicResampler.iterations x,
          BasicResampler.sampleAggregates x ++ stats))
    (fun _ _ => True))].
  - intros [[]|p] [x' h']; simpl; [|done].
    intros (stats & Hlen & Hfix). unfold wp. simpl.
    injection Hfix as Ha Hi Hs. rewrite Hs. repeat split; try done.
    by exists stats.
  - exists []. by rewrite app_nil_r.
  - intros k [] [x' h'] Hk (stats & Hlen & Hfix).
    apply wp_bind. eapply wp_mono; [|apply BasicResampler_draw_keeps, Hfix].
    intros [[]|p] [x1 h1]; simpl; [|done]. intros Hfix1.
    wp_go. apply wp_bind. unfold wp at 1, on_slice. simpl.
    destruct (Aggregate _ _) as [[a|p] l]; simpl; [|done].
    unfold wp. simpl. exists (stats ++ [a]). rewrite length_app. simpl.
    split; [lia|]. unfold BasicResampler_fixed in *. simpl in *.
    injection Hfix1 as -> -> ->. by rewrite (assoc_L (++)).
Qed.

Lemma PresampledResampler_scale_keeps (values scratch : slice) (i : Z) n x w :
  w.1 = x ->
  wp (for_range 0 n (fun j (_ : unit) =>
        let! v := load values j in
        let! row := on_self (fun x => (index (PresampledResampler.samples x) i, x)) in
        let! c := of_result (index row j) in
        store scratch j (v * float64_of_int c)%float) tt)
     (fun _ w' => w'.1 = x) w.
Proof.
  intros Hc. apply (wp_for_range_keeps (fun w => w.1 = x)); [done|].
  clear. intros j [] [x' h] Hc. simpl in Hc.
  unfold wp, bind, on_self, of_result, load, store. simpl.
  destruct (index (deref h values) j) as [v|?]; simpl; [|done].
  destruct (index (PresampledResampler.samples x') i) as [row|?]; simpl; [|done].
  destruct (index row j) as [c|?]; simpl; [|done].
  by destruct (assign (deref h scratch) j _).
Qed.

Lemma PresampledResampler_Resample_post (values : slice) x h :
  wp (PresampledResampler.Resample values)
     (post (fun _ w =>
              appended (PresampledResampler.iterations x)
                (PresampledResampler.sampleAggregates x)
                (PresampledResampler.sampleAggregates w.1)
              /\ PresampledResampler.iterations w.1 = PresampledResampler.iterations x
              /\ PresampledResampler.aggregator w.1 = PresampledResampler.aggregator x
              /\ PresampledResampler.samples w.1 = PresampledResampler.samples x)
           (fun _ w => PresampledResampler.samples w.1 = PresampledResampler.samples x))
     (x, h).
Proof.
  unfold PresampledResampler.Resample.
  wp_go. apply wp_bind, wp_make_nat. simpl.
  wp_go. wp_go.
  eapply wp_mono; [|apply (wp_for_range
    (fun k _ w => exists stats, length stats = k /\
       w.1 = PresampledResampler.set_sampleAggregates (fun s => s ++ stats) x)
    (fun _ w => PresampledResampler.samples w.1 = PresampledResampler.samples x))].
  - intros [[]|p] [x' h']; simpl; [|done].
    intros (stats & Hlen & ->). unfold wp. simpl.
    repeat split; try done. by exists stats.
  - exists []. simpl. destruct x. unfold PresampledResampler.set_sampleAggregates.
    simpl. by rewrite app_nil_r.
  - intros k [] [x' h'] Hk (stats & Hlen & Hfix). simpl in Hfix.
    apply wp_bind. eapply wp_mono; [|by apply PresampledResampler_scale_keeps].
    intros [[]|p] [x1 h1]; simpl; [|by intros ->; subst x'].
    intros ->.
    wp_go. apply wp_bind. unfold wp at 1, on_slice. simpl.
    destruct (Aggregate _ _) as [[a|p] l]; simpl; [|by subst x'].
    unfold wp. simpl. exists (stats ++ [a]). rewrite length_app. simpl.
    split; [lia|]. subst x'. unfold PresampledResampler.set_sampleAggregates. simpl.
    by rewrite (assoc_L (++)).
Qed.

Lemma appended_accumulates `{!PlatformSpec P} iterations old new :
  (0 <= iterations)%Z -> appended iterations old new -> accumulates iterations old new.
Proof.
  intros Hit (stats & Hlen & ->). repeat split.
  - exists stats. split; [done|]. apply Float64s_Permutation.
  - apply Float64s_sorted.
  - rewrite (Float64s_Permutation (old ++ stats)), length_app. lia.
Qed.
End Appends.

(** * The presampled table *)

Lemma row_sum_insert (row : list Z) i c c' :
  row !! i = Some c -> row_sum (<[i := c']> row) = (row_sum row - c + c')%Z.
Proof.
  revert i. induction row as [|d row IH]; intros [|i] Hi; simplify_eq/=; [lia|].
  rewrite (IH _ Hi). lia.
Qed.

Lemma row_sum_replicate n : row_sum (replicate n 0%Z) = 0%Z.
Proof. induction n; simpl; lia. Qed.

Section Table.
Context `{P : Platform} `{!PlatformSpec P}.

Lemma sampledInts_row_ok (numValues : Z) s :
  (0 <= numValues)%Z ->
  wp (sampledInts_row numValues) (post (fun row _ => row_ok numValues row) (fun _ _ => False)) s.
Proof.
  intros Hnv. unfold sampledInts_row.
  destruct (Z.ltb_spec numValues 0) as [|_]; [lia|].
  rewrite length_replicate.
  eapply wp_mono; [|apply (wp_for_range
    (fun k row _ => Z.of_nat (length row) = numValues /\ Forall (fun c => (0 <= c)%Z) row
                    /\ row_sum row = Z.of_nat k) (fun _ _ => False))].
  - intros [row|p] s'; simpl; [|done]. intros (Hl & Hpos & Hsum).
    repeat split; [done..|lia].
  - rewrite length_replicate, row_sum_replicate. split; [lia|]. split; [|done].
    apply Forall_replicate. lia.
  - intros k row s0 Hk (Hl & Hpos & Hsum).
    apply wp_bind. unfold wp at 1, Source_Int63.
    pose proof (Int63_range s0) as Hr. destruct (Int63 s0) as [n s1]. simpl in *.
    apply wp_bind. unfold wp at 1, of_result, int_rem. simpl.
    destruct (Z.eqb_spec numValues 0) as [|Hne]; [lia|]. simpl.
    assert (0 <= Z.rem n numValues < numValues)%Z as Hrem by (apply Z.rem_bound_pos; lia).
    destruct (index_lt row (Z.rem n numValues)) as (c & Hidx & Hc); [lia|].
    apply wp_bind. unfold wp at 1. simpl. rewrite Hidx. simpl.
    unfold wp. simpl.
    rewrite <- (Z2Nat.id (Z.rem n numValues)) at 1 by lia.
    rewrite assign_lt by lia. simpl.
    rewrite length_insert. split; [done|]. split.
    + apply Forall_insert; [done|]. rewrite Forall_lookup in Hpos.
      specialize (Hpos _ _ Hc). simpl in Hpos. lia.
    + rewrite (row_sum_insert _ _ _ _ Hc). lia.
Qed.

Lemma NewPresampledResampler_rows (iterations numValues : Z) s :
  (0 <= iterations)%Z -> (0 <= numValues)%Z ->
  wp (for_range 0 (Z.to_nat iterations)
        (fun i samples =>
           let! sampledInts := sampledInts_row numValues in
           of_result (assign samples i sampledInts))
        (replicate (Z.to_nat iterations) []))
     (post (fun samples _ => table_ok iterations numValues samples) (fun _ _ => False)) s.
Proof.
  intros Hit Hnv.
  eapply wp_mono; [|apply (wp_for_range
    (fun k (samples : list (list Z)) (_ : Source) =>
       Z.of_nat (length samples) = iterations /\ Forall (row_ok numValues) (take k samples))
    (fun _ _ => False))].
  - intros [samples|p] s'; simpl; [|done]. intros (Hl & Hrows).
    split; [done|]. by rewrite take_ge in Hrows by lia.
  - rewrite length_replicate. split; [lia|]. by rewrite take_0.
  - intros k samples0 s0 Hk (Hl & Hrows).
    apply wp_bind. eapply wp_mono; [|by apply sampledInts_row_ok].
    intros [row|p] s1; simpl; [|done]. intros Hrow.
    unfold wp, of_result. rewrite Z.add_0_l, assign_lt by lia. simpl.
    rewrite length_insert. split; [done|].
    rewrite (take_S_r _ _ row) by (apply list_lookup_insert_eq; lia).
    rewrite take_insert_ge by lia. apply Forall_app. split; [done|]. by constructor.
Qed.

Lemma NewPresampledResampler_ok (a : Aggregator) (iterations numValues : Z) :
  (0 <= iterations)%Z -> (0 <= numValues)%Z ->
  exists x, NewPresampledResampler a iterations numValues = Ok x
    /\ table_ok iterations numValues (PresampledResampler.samples x)
    /\ PresampledResampler.aggregator x = a
    /\ PresampledResampler.iterations x = iterations
    /\ PresampledResampler.sampleAggregates x = [].
Proof.
  intros Hit Hnv. unfold NewPresampledResampler.
  destruct (Z.ltb_spec iterations 0) as [|_]; [lia|].
  rewrite length_replicate.
  pose proof (NewPresampledResampler_rows iterations numValues (NewSource 0) Hit Hnv) as Hwp.
  unfold wp in Hwp.
  destruct (for_range _ _ _ _ _) as [[samples|p] s']; simpl in Hwp; [|done].
  by eexists.
Qed.
End Table.

(** * [PresampledResampler.Resample], round by round *)

Lemma insert_take_drop {A} (T l : list A) k y :
  T !! k = Some y -> length T = length l ->
  <[k := y]> (take k T ++ drop k l) = take (S k) T ++ drop (S k) l.
Proof.
  intros HT Hlen. pose proof (lookup_lt_Some _ _ _ HT) as Hk.
  destruct (lookup_lt_is_Some_2 l k) as [z Hz]; [lia|].
  rewrite insert_app_r_alt by (rewrite length_take; lia).
  rewrite length_take, Nat.min_l by lia. rewrite Nat.sub_diag.
  rewrite (drop_S _ _ _ Hz). simpl.
  rewrite (take_S_r _ _ _ HT). by rewrite <- (assoc_L (++)).
Qed.

Lemma deref_app_l (h : heap) l (s : slice) : s < length h -> deref (h ++ [l]) s = deref h s.
Proof. intros Hs. unfold deref. by rewrite lookup_app_l. Qed.

Lemma deref_app_r (h : heap) l : deref (h ++ [l]) (length h) = l.
Proof. unfold deref. by rewrite list_lookup_middle. Qed.

Lemma insert_app_last (h : heap) l l' : <[length h := l']> (h ++ [l]) = h ++ [l'].
Proof. rewrite insert_app_r_alt by lia. by rewrite Nat.sub_diag. Qed.

Lemma wp_ok_eq {St A} (m : M St A) s a0 s0 :
  wp m (post (fun a s' => a = a0 /\ s' = s0) (fun _ _ => False)) s -> m s = (Ok a0, s0).
Proof. unfold wp. destruct (m s) as [[a|p] s']; simpl; [|done]. by intros [-> ->]. Qed.

Section Scale.
Context `{P : Platform}.

Lemma PresampledResampler_scale_exact (values : slice) (i : Z) x h l row :
  values < length h ->
  length l = length (deref h values) ->
  index (PresampledResampler.samples x) i = Ok row ->
  length (deref h values) <= length row ->
  for_range 0 (length (deref h values)) (fun j (_ : unit) =>
      let! v := load values j in
      let! row := on_self (fun x => (index (PresampledResampler.samples x) i, x)) in
      let! c := of_result (index row j) in
      store (length h) j (v * float64_of_int c)%float) tt (x, h ++ [l])
  = (Ok tt, (x, h ++ [scaled (deref h values) row])).
Proof.
  intros Hv Hl Hrow Hlen.
  set (vals := deref h values) in *.
  assert (HT : length (scaled vals row) = length vals).
  { unfold scaled. rewrite length_zip_with. lia. }
  apply wp_ok_eq.
  eapply wp_mono; [|apply (wp_for_range
      (fun k (_ : unit) w => w = (x, h ++ [take k (scaled vals row) ++ drop k l]))
      (fun _ _ => False))].
  - intros [[]|p] w; simpl; [|done]. intros ->. split; [done|].
    rewrite take_ge, drop_ge by lia. by rewrite app_nil_r.
  - by rewrite take_0, drop_0.
  - intros k [] w Hk ->. rewrite Z.add_0_l.
    destruct (lookup_lt_is_Some_2 vals k) as [v Hvk]; [lia|].
    destruct (lookup_lt_is_Some_2 row k) as [c Hc]; [lia|].
    unfold wp, bind, load, on_self, of_result, store. simpl.
    rewrite deref_app_l by done. fold vals. rewrite (index_Some _ _ _ Hvk). simpl.
    rewrite Hrow. simpl. rewrite (index_Some _ _ _ Hc). simpl.
    rewrite deref_app_r, assign_lt by (rewrite length_app, length_take, length_drop; lia).
    simpl. rewrite insert_app_last. do 3 f_equal.
    apply insert_take_drop; [|lia].
    unfold scaled. by rewrite lookup_zip_with, Hvk, Hc.
Qed.

Lemma PresampledResampler_set_set f g (x : PresampledResampler.t) :
  PresampledResampler.set_sampleAggregates f (PresampledResampler.set_sampleAggregates g x)
  = PresampledResampler.set_sampleAggregates (fun s => f (g s)) x.
Proof. done. Qed.

Lemma PresampledResampler_round_exact (values : slice) (i : nat) x h l row :
  values < length h ->
  length l = length (deref h values) ->
  PresampledResampler.samples x !! i = Some row ->
  length (deref h values) <= length row ->
  PresampledResampler_round values (length h) (length (deref h values)) (Z.of_nat i)
    (x, h ++ [l])
  = match Aggregate (PresampledResampler.aggregator x) (scaled (deref h values) row) with
    | (Ok x0, l1) =>
        (Ok tt, (PresampledResampler.set_sampleAggregates (fun s => s ++ [x0]) x, h ++ [l1]))
    | (Panic p, l1) => (Panic p, (x, h ++ [l1]))
    end.
Proof.
  intros Hv Hl Hi Hrow. unfold PresampledResampler_round.
  unfold bind at 1.
  rewrite (PresampledResampler_scale_exact values (Z.of_nat i) x h l row Hv Hl
             (index_Some _ _ _ Hi) Hrow).
  unfold bind, on_self, gets, on_slice, modify. simpl. rewrite deref_app_r.
  destruct (Aggregate _ _) as [[x0|p] l1]; simpl; by rewrite insert_app_last.
Qed.

Lemma PresampledResampler_rounds_exact (values : slice) h rows :
  values < length h ->
  forall (i0 : nat) x l,
  length l = length (deref h values) ->
  drop i0 (PresampledResampler.samples x) = rows ->
  Forall (fun row => length (deref h values) <= length row) rows ->
  keeps_length (PresampledResampler.aggregator x) ->
  let o :=
    for_range (Z.of_nat i0) (length rows) (fun i (_ : unit) =>
      PresampledResampler_round values (length h) (length (deref h values)) i)
      tt (x, h ++ [l]) in
  match aggregate_each (PresampledResampler.aggregator x)
          (map (scaled (deref h values)) rows) with
  | Ok stats =>
      exists l', length l' = length (deref h values)
        /\ o = (Ok tt, (PresampledResampler.set_sampleAggregates (fun s => s ++ stats) x,
                        h ++ [l']))
  | Panic p => o.1 = Panic p
  end.
Proof.
  intros Hv. induction rows as [|row rows IH]; intros i0 x l Hl Hdrop Hrows Hkeep o.
  - exists l. split; [done|]. destruct x. unfold PresampledResampler.set_sampleAggregates.
    simpl. by rewrite app_nil_r.
  - pose proof (Forall_inv Hrows) as Hrow. apply Forall_inv_tail in Hrows.
    assert (Hi0 : PresampledResampler.samples x !! i0 = Some row).
    { pose proof (lookup_drop (PresampledResampler.samples x) i0 0) as Hd.
      rewrite Hdrop, Nat.add_0_r in Hd. done. }
    subst o. simpl length. rewrite for_range_S. unfold bind.
    rewrite (PresampledResampler_round_exact values i0 x h l row Hv Hl Hi0 Hrow).
    pose proof (Hkeep (scaled (deref h values) row)) as Hkl.
    simpl aggregate_each.
    destruct (Aggregate (PresampledResampler.aggregator x) (scaled (deref h values) row))
      as [[x0|p] l1]; simpl in *; [|done].
    assert (Hl1 : length l1 = length (deref h values)).
    { rewrite Hkl. unfold scaled. rewrite length_zip_with. lia. }
    specialize (IH (S i0) (PresampledResampler.set_sampleAggregates (fun s => s ++ [x0]) x)
                  l1 Hl1).
    simpl in IH. replace (Z.of_nat i0 + 1)%Z with (Z.of_nat (S i0)) by lia.
    assert (Hd' : drop (S i0) (PresampledResampler.samples x) = rows)
      by (rewrite (drop_S _ _ _ Hi0) in Hdrop; congruence).
    specialize (IH Hd' Hrows Hkeep).
    destruct (aggregate_each _ _) as [stats|p]; [|done].
    destruct IH as (l' & Hl' & ->). exists l'. split; [done|].
    unfold PresampledResampler.set_sampleAggregates. simpl. by rewrite <- (assoc_L (++)).
Qed.

Lemma PresampledResampler_Resample_exact (values : slice) x h :
  values < length h ->
  Z.of_nat (length (PresampledResampler.samples x)) = PresampledResampler.iterations x ->
  Forall (fun row => length (deref h values) <= length row) (PresampledResampler.samples x) ->
  keeps_length (PresampledResampler.aggregator x) ->
  let o := PresampledResampler.Resample values (x, h) in
  match PresampledResampler_Resample_spec x (deref h values) with
  | Ok s =>
      exists l', o = (Ok tt, (PresampledResampler.set_sampleAggregates (fun _ => s) x,
                             h ++ [l']))
  | Panic p => o.1 = Panic p
  end.
Proof.
  intros Hv Hit Hrows Hkeep o.
  pose proof (PresampledResampler_rounds_exact values h (PresampledResampler.samples x) Hv
                0 x (replicate (length (deref h values)) 0%float)
                ltac:(by rewrite length_replicate) (drop_0 _) Hrows Hkeep) as Hr.
  change (Z.of_nat 0) with 0%Z in Hr. cbv zeta in Hr.
  assert (Ho : o = bind (for_range 0 (length (PresampledResampler.samples x))
            (fun i (_ : unit) =>
               PresampledResampler_round values (length h) (length (deref h values)) i) tt)
            (fun _ => on_self (modify (PresampledResampler.set_sampleAggregates Float64s)))
            (x, h ++ [replicate (length (deref h values)) 0%float])).
  { subst o. unfold PresampledResampler.Resample.
    unfold bind at 1. unfold len at 1, gets at 1. simpl.
    unfold bind at 1. rewrite make_nat. simpl.
    unfold bind at 1. unfold on_self at 1, gets at 1. simpl.
    by rewrite <- Hit, !Nat2Z.id. }
  rewrite Ho. unfold PresampledResampler_Resample_spec, bind.
  destruct (aggregate_each _ _) as [stats|p].
  - destruct Hr as (l' & _ & Hr). rewrite Hr. exists l'. done.
  - by destruct (for_range _ _ _ _ _) as [[[]|p'] w]; simplify_eq/=.
Qed.
End Scale.

(** * Aggregators, faults and frames *)

Section More.
Context `{P : Platform}.

Lemma SumAggregator_keeps_length : keeps_length NewSumAggregator.
Proof. done. Qed.

Lemma AverageAggregator_keeps_length : keeps_length NewAverageAggregator.
Proof. done. Qed.

Lemma QuantileAggregator_keeps_length `{!PlatformSpec P} q :
  keeps_length (NewQuantileAggregator q).
Proof. intros values. simpl. unfold bind, modify. simpl. by rewrite Float64s_Permutation. Qed.

Lemma index_Ok_lt {A} (l : list A) i x : index l i = Ok x -> (0 <= i < Z.of_nat (length l))%Z.
Proof.
  unfold index. destruct (Z.leb_spec 0 i); [|done].
  destruct (l !! Z.to_nat i) eqn:E; [|done]. intros _.
  apply lookup_lt_Some in E. lia.
Qed.

Lemma index_Panic {A} (l : list A) i p : index l i = Panic p -> p = IndexOutOfRange.
Proof. unfold index. repeat case_match; congruence. Qed.

Lemma assign_Panic {A} (l : list A) i x p : assign l i x = Panic p -> p = IndexOutOfRange.
Proof. unfold assign. case_match; congruence. Qed.

Lemma PresampledResampler_scale_short_row (values scratch : slice) x h row n :
  PresampledResampler.samples x !! 0 = Some row ->
  length row < n ->
  wp (for_range 0 n (fun j (_ : unit) =>
        let! v := load values j in
        let! row := on_self (fun x => (index (PresampledResampler.samples x) 0, x)) in
        let! c := of_result (index row j) in
        store scratch j (v * float64_of_int c)%float) tt)
     (post (fun _ _ => False) (fun p w => p = IndexOutOfRange /\ w.1 = x)) (x, h).
Proof.
  intros Hrow Hlen.
  eapply wp_mono; [|apply (wp_for_range
      (fun k (_ : unit) (w : PresampledResampler.t * heap) => w.1 = x /\ k <= length row)
      (fun p w => p = IndexOutOfRange /\ w.1 = x))].
  - intros [[]|p] w; simpl; [lia|done].
  - split; [done|lia].
  - intros k [] [x' h'] Hk [Hx Hkr]. simpl in Hx. subst x'. rewrite Z.add_0_l.
    unfold wp, bind, load, on_self, of_result, store. simpl.
    destruct (index (deref h' values) (Z.of_nat k)) as [v|?] eqn:Ev; simpl;
      [|by apply index_Panic in Ev].
    pose proof (index_Some _ _ _ Hrow) as Hrow0. change (Z.of_nat 0) with 0%Z in Hrow0.
    rewrite Hrow0. simpl.
    destruct (index row (Z.of_nat k)) as [c|?] eqn:Ec; simpl;
      [|by apply index_Panic in Ec].
    apply index_Ok_lt in Ec.
    destruct (assign _ _ _) eqn:Ea; simpl; [split; [done|lia]|by apply assign_Panic in Ea].
Qed.

(** More values than columns: the first round faults at the first missing
    column, before anything is appended. *)
Lemma PresampledResampler_Resample_short_row (values : slice) x h row :
  (1 <= PresampledResampler.iterations x)%Z ->
  PresampledResampler.samples x !! 0 = Some row ->
  length row < length (deref h values) ->
  let o := PresampledResampler.Resample values (x, h) in
  o.1 = Panic IndexOutOfRange /\ o.2.1 = x.
Proof.
  intros Hit Hrow Hlen o.
  cut (exists w, o = (Panic IndexOutOfRange, w) /\ w.1 = x).
  { by intros (w & -> & Hw). }
  subst o. unfold PresampledResampler.Resample.
  unfold bind at 1. unfold len at 1, gets at 1. simpl.
  unfold bind at 1. rewrite make_nat. simpl.
  unfold bind at 1. unfold on_self at 1, gets at 1. simpl.
  destruct (Z.to_nat (PresampledResampler.iterations x)) as [|n] eqn:En; [lia|].
  rewrite Nat2Z.id. unfold bind at 1. rewrite for_range_S. unfold bind at 1. unfold bind at 1.
  match goal with |- context [for_range 0 ?n ?b tt ?s] =>
    pose proof (PresampledResampler_scale_short_row values (length h) x s.2 row n Hrow Hlen)
      as Hwp;
    unfold wp in Hwp; simpl in Hwp;
    destruct (for_range 0 n b tt s) as [[[]|p] w] end; simpl in Hwp; [done|].
  destruct Hwp as [-> Hw]. by exists w.
Qed.

(** No values: the draw is never reached, and every round aggregates the empty
    scratch. *)
Lemma BasicResampler_rounds_empty (values : slice) (scratch_at : list (list float64)) a0 n :
  forall from (x : BasicResampler.t),
  Aggregate (BasicResampler.aggregator x) [] = (Ok a0, []) ->
  for_range from n (fun _ (_ : unit) =>
      do! for_range 0 0 (fun i (_ : unit) =>
            let! n := on_self BasicResampler.r_Int63 in
            let! k := of_result (int_rem n 0) in
            let! v := load values k in
            store (length scratch_at) i v) tt in
      let! a := on_self (gets BasicResampler.aggregator) in
      let! x0 := on_slice (length scratch_at) (Aggregate a) in
      on_self (modify (BasicResampler.set_sampleAggregates (fun s => s ++ [x0])))) tt
    (x, scratch_at ++ [[]])
  = (Ok tt, (BasicResampler.set_sampleAggregates (fun s => s ++ replicate n a0) x,
             scratch_at ++ [[]])).
Proof.
  induction n as [|n IH]; intros from x Ha.
  - simpl. unfold ret. do 2 f_equal. destruct x. unfold BasicResampler.set_sampleAggregates.
    simpl. by rewrite app_nil_r.
  - rewrite for_range_S. unfold bind at 1. simpl for_range at 1.
    unfold bind at 1. unfold ret at 1. unfold bind at 1. unfold on_self at 1, gets at 1. simpl.
    unfold bind at 1, on_slice at 1. simpl. rewrite deref_app_r, Ha, insert_app_last.
    unfold on_self at 1, modify at 1. simpl.
    rewrite IH by done. do 2 f_equal.
    unfold BasicResampler.set_sampleAggregates. simpl. by rewrite <- (assoc_L (++)).
Qed.

Lemma BasicResampler_Resample_empty (values : slice) x h a0 :
  deref h values = [] ->
  Aggregate (BasicResampler.aggregator x) [] = (Ok a0, []) ->
  BasicResampler.Resample values (x, h)
  = (Ok tt,
     (BasicResampler.set_sampleAggregates
        (fun s => Float64s (s ++ replicate (Z.to_nat (BasicResampler.iterations x)) a0)) x,
      h ++ [[]])).
Proof.
  intros Hnil Ha. unfold BasicResampler.Resample.
  unfold bind at 1. unfold len at 1, gets at 1. simpl.
  unfold bind at 1. rewrite make_nat. simpl.
  unfold bind at 1. unfold on_self at 1, gets at 1. simpl.
  rewrite Hnil. simpl. unfold bind at 1.
  rewrite (BasicResampler_rounds_empty values h a0) by done.
  done.
Qed.

(** [Resample] leaves every slice that was in the store when it was called as
    it was: it writes to its own scratch slice only. *)
Lemma BasicResampler_Resample_frame (values : slice) x h :
  wp (BasicResampler.Resample values) (fun _ w => take (length h) w.2 = h) (x, h).
Proof.
  unfold BasicResampler.Resample.
  wp_go. apply wp_bind, wp_make_nat. simpl. wp_go. apply wp_bind.
  eapply wp_mono; [|apply (wp_for_range_keeps (fun w => take (length h) w.2 = h))].
  - intros [[]|p] w Hw; simpl; [|done]. done.
  - simpl. by rewrite take_app_length.
  - intros i [] [x1 h1] Hh1. simpl in Hh1.
    apply wp_bind. eapply wp_mono; [|apply (wp_for_range_keeps (fun w => take (length h) w.2 = h))].
    + intros [[]|p] [x2 h2] Hh2; simpl in *; [|done].
      wp_go. apply wp_bind. unfold wp at 1, on_slice. simpl.
      destruct (Aggregate _ _) as [[a|p] l]; simpl; unfold wp; simpl;
        by rewrite take_insert_ge.
    + done.
    + clear. intros i [] [x h1] Hh1. simpl in Hh1.
      unfold wp, bind, on_self, BasicResampler.r_Int63, of_result, load, store. simpl.
      destruct (Int63 (BasicResampler.r x)) as [d s']. simpl.
      destruct (int_rem d _) as [k|?]; simpl; [|done].
      destruct (index (deref h1 values) k) as [v|?]; simpl; [|done].
      destruct (assign (deref h1 (length h)) i v); simpl; [|done].
      by rewrite take_insert_ge.
Qed.

Lemma PresampledResampler_Resample_frame (values : slice) x h :
  wp (PresampledResampler.Resample values) (fun _ w => take (length h) w.2 = h) (x, h).
Proof.
  unfold PresampledResampler.Resample.
  wp_go. apply wp_bind, wp_make_nat. simpl. wp_go. apply wp_bind.
  eapply wp_mono; [|apply (wp_for_range_keeps (fun w => take (length h) w.2 = h))].
  - intros [[]|p] w Hw; simpl; [|done]. done.
  - simpl. by rewrite take_app_length.
  - intros i [] [x1 h1] Hh1. simpl in Hh1.
    apply wp_bind. eapply wp_mono; [|apply (wp_for_range_keeps (fun w => take (length h) w.2 = h))].
    + intros [[]|p] [x2 h2] Hh2; simpl in *; [|done].
      wp_go. apply wp_bind. unfold wp at 1, on_slice. simpl.
      destruct (Aggregate _ _) as [[a|p] l]; simpl; unfold wp; simpl;
        by rewrite take_insert_ge.
    + done.
    + clear. intros j [] [x h1] Hh1. simpl in Hh1.
      unfold wp, bind, on_self, of_result, load, store. simpl.
      destruct (index (deref h1 values) j) as [v|?]; simpl; [|done].
      destruct (index (PresampledResampler.samples x) i) as [row|?]; simpl; [|done].
      destruct (index row j) as [c|?]; simpl; [|done].
      destruct (assign (deref h1 (length h)) j _); simpl; [|done].
      by rewrite take_insert_ge.
Qed.
End More.

(** * Two runs side by side *)

Lemma rel_bind {S1 S2 A B} (R : S1 -> S2 -> Prop)
    (m1 : M S1 A) (m2 : M S2 A) (k1 : A -> M S1 B) (k2 : A -> M S2 B) s1 s2 :
  rel R m1 m2 s1 s2 ->
  (forall a s1' s2', R s1' s2' -> rel R (k1 a) (k2 a) s1' s2') ->
  rel R (bind m1 k1) (bind m2 k2) s1 s2.
Proof.
  unfold rel, bind. intros [Hres HR] Hk.
  destruct (m1 s1) as [[a1|p1] s1'], (m2 s2) as [[a2|p2] s2']; simplify_eq/=; auto.
Qed.

Lemma rel_for_range {S1 S2 A} (R : S1 -> S2 -> Prop) from n
    (b1 : Z -> A -> M S1 A) (b2 : Z -> A -> M S2 A) a s1 s2 :
  R s1 s2 ->
  (forall i a s1 s2, R s1 s2 -> rel R (b1 i a) (b2 i a) s1 s2) ->
  rel R (for_range from n b1 a) (for_range from n b2 a) s1 s2.
Proof.
  intros HR Hb. revert from a s1 s2 HR.
  induction n as [|n IH]; intros from a s1 s2 HR; [done|].
  simpl. apply rel_bind; [by apply Hb|]. intros a' s1' s2' HR'. by apply IH.
Qed.

Lemma same_slices_insert v1 c1 v2 c2 h1 h2 l :
  same_slices v1 c1 v2 c2 h1 h2 ->
  same_slices v1 c1 v2 c2 (<[c1 := l]> h1) (<[c2 := l]> h2).
Proof.
  intros (Hv & Hc & H1 & H2 & Hn1 & Hn2). unfold same_slices, deref.
  rewrite !length_insert, !list_lookup_insert_ne, !list_lookup_insert_eq by done.
  done.
Qed.

Lemma same_slices_alloc v1 v2 h1 h2 l :
  v1 < length h1 -> v2 < length h2 -> deref h1 v1 = deref h2 v2 ->
  same_slices v1 (length h1) v2 (length h2) (h1 ++ [l]) (h2 ++ [l]).
Proof.
  intros H1 H2 Hv. unfold same_slices.
  rewrite !deref_app_l, !deref_app_r, !length_app by done. simpl.
  repeat split; [done|lia..].
Qed.

Section Rel.
Context `{P : Platform}.

Lemma BasicResampler_Resample_unfold (values : slice) x h :
  BasicResampler.Resample values (x, h)
  = (do! for_range 0 (Z.to_nat (BasicResampler.iterations x)) (fun _ (_ : unit) =>
           BasicResampler_round values (length h) (length (deref h values))) tt in
     on_self (modify (BasicResampler.set_sampleAggregates Float64s)))
      (x, h ++ [replicate (length (deref h values)) 0%float]).
Proof.
  unfold BasicResampler.Resample.
  unfold bind at 1. unfold len at 1, gets at 1. simpl.
  unfold bind at 1. rewrite make_nat. simpl.
  unfold bind at 1. unfold on_self at 1, gets at 1. simpl.
  by rewrite !Nat2Z.id.
Qed.

Lemma PresampledResampler_Resample_unfold (values : slice) x h :
  PresampledResampler.Resample values (x, h)
  = (do! for_range 0 (Z.to_nat (PresampledResampler.iterations x)) (fun i (_ : unit) =>
           PresampledResampler_round values (length h) (length (deref h values)) i) tt in
     on_self (modify (PresampledResampler.set_sampleAggregates Float64s)))
      (x, h ++ [replicate (length (deref h values)) 0%float]).
Proof.
  unfold PresampledResampler.Resample.
  unfold bind at 1. unfold len at 1, gets at 1. simpl.
  unfold bind at 1. rewrite make_nat. simpl.
  unfold bind at 1. unfold on_self at 1, gets at 1. simpl.
  by rewrite !Nat2Z.id.
Qed.

Lemma BasicResampler_round_rel (v1 c1 v2 c2 : slice) n w1 w2 :
  w1.1 = w2.1 /\ same_slices v1 c1 v2 c2 w1.2 w2.2 ->
  rel (fun w1 w2 => w1.1 = w2.1 /\ same_slices v1 c1 v2 c2 w1.2 w2.2)
    (BasicResampler_round v1 c1 n) (BasicResampler_round v2 c2 n) w1 w2.
Proof.
  intros HR. unfold BasicResampler_round.
  apply rel_bind.
  - apply rel_for_range; [done|]. clear. intros i [] [x1 h1] [x2 h2] [Hx Hs].
    simpl in Hx. subst x2. simpl in Hs.
    destruct Hs as (Hv & Hc & H1 & H2 & Hn1 & Hn2).
    unfold rel, bind, on_self, BasicResampler.r_Int63, of_result, load, store. simpl.
    destruct (Int63 (BasicResampler.r x1)) as [d s']. simpl.
    destruct (int_rem d _) as [k|?]; simpl; [|done].
    rewrite <- Hv. destruct (index (deref h1 v1) k) as [v|?]; simpl; [|done].
    rewrite <- Hc. destruct (assign (deref h1 c1) i v); simpl; [|done].
    split; [done|]. split; [done|]. by apply same_slices_insert.
  - clear. intros [] [x1 h1] [x2 h2] [Hx Hs]. simpl in Hx. subst x2. simpl in Hs.
    pose proof Hs as (Hv & Hc & H1 & H2 & Hn1 & Hn2).
    unfold rel, bind, on_self, gets, on_slice, modify. simpl. rewrite <- Hc.
    destruct (Aggregate _ _) as [[a|p] l]; simpl; (split; [done|]); (split; [done|]);
      by apply same_slices_insert.
Qed.

Lemma BasicResampler_Resample_rel (v1 v2 : slice) x h1 h2 :
  v1 < length h1 -> v2 < length h2 -> deref h1 v1 = deref h2 v2 ->
  rel (fun w1 w2 => w1.1 = w2.1) (BasicResampler.Resample v1) (BasicResampler.Resample v2)
    (x, h1) (x, h2).
Proof.
  intros Hv1 Hv2 Hv.
  set (R := fun (w1 w2 : BasicResampler.t * heap) =>
              w1.1 = w2.1 /\ same_slices v1 (length h1) v2 (length h2) w1.2 w2.2).
  cut (rel R (BasicResampler.Resample v1) (BasicResampler.Resample v2) (x, h1) (x, h2)).
  { unfold rel, R. tauto. }
  unfold rel. rewrite !BasicResampler_Resample_unfold, <- Hv.
  apply rel_bind.
  - apply rel_for_range.
    + split; [done|]. by apply same_slices_alloc.
    + intros _ [] w1 w2 HR. by apply BasicResampler_round_rel.
  - clear. intros [] [x1 h1'] [x2 h2'] [Hx Hs]. simpl in Hx. subst x2.
    unfold rel, on_self, modify. simpl. done.
Qed.

Lemma PresampledResampler_round_rel (v1 c1 v2 c2 : slice) n i w1 w2 :
  w1.1 = w2.1 /\ same_slices v1 c1 v2 c2 w1.2 w2.2 ->
  rel (fun w1 w2 => w1.1 = w2.1 /\ same_slices v1 c1 v2 c2 w1.2 w2.2)
    (PresampledResampler_round v1 c1 n i) (PresampledResampler_round v2 c2 n i) w1 w2.
Proof.
  intros HR. unfold PresampledResampler_round.
  apply rel_bind.
  - apply rel_for_range; [done|]. clear. intros j [] [x1 h1] [x2 h2] [Hx Hs].
    simpl in Hx. subst x2. simpl in Hs.
    destruct Hs as (Hv & Hc & H1 & H2 & Hn1 & Hn2).
    unfold rel, bind, on_self, of_result, load, store. simpl.
    rewrite <- Hv. destruct (index (deref h1 v1) j) as [v|?]; simpl; [|done].
    destruct (index (PresampledResampler.samples x1) i) as [row|?]; simpl; [|done].
    destruct (index row j) as [c|?]; simpl; [|done].
    rewrite <- Hc. destruct (assign (deref h1 c1) j _); simpl; [|done].
    split; [done|]. split; [done|]. by apply same_slices_insert.
  - clear. intros [] [x1 h1] [x2 h2] [Hx Hs]. simpl in Hx. subst x2. simpl in Hs.
    pose proof Hs as (Hv & Hc & H1 & H2 & Hn1 & Hn2).
    unfold rel, bind, on_self, gets, on_slice, modify. simpl. rewrite <- Hc.
    destruct (Aggregate _ _) as [[a|p] l]; simpl; (split; [done|]); (split; [done|]);
      by apply same_slices_insert.
Qed.

Lemma PresampledResampler_Resample_rel (v1 v2 : slice) x h1 h2 :
  v1 < length h1 -> v2 < length h2 -> deref h1 v1 = deref h2 v2 ->
  rel (fun w1 w2 => w1.1 = w2.1)
    (PresampledResampler.Resample v1) (PresampledResampler.Resample v2) (x, h1) (x, h2).
Proof.
  intros Hv1 Hv2 Hv.
  set (R := fun (w1 w2 : PresampledResampler.t * heap) =>
              w1.1 = w2.1 /\ same_slices v1 (length h1) v2 (length h2) w1.2 w2.2).
  cut (rel R (PresampledResampler.Resample v1) (PresampledResampler.Resample v2)
         (x, h1) (x, h2)).
  { unfold rel, R. tauto. }
  unfold rel. rewrite !PresampledResampler_Resample_unfold, <- Hv.
  apply rel_bind.
  - apply rel_for_range.
    + split; [done|]. by apply same_slices_alloc.
    + intros i [] w1 w2 HR. by apply PresampledResampler_round_rel.
  - clear. intros [] [x1 h1'] [x2 h2'] [Hx Hs]. simpl in Hx. subst x2.
    unfold rel, on_self, modify. simpl. done.
Qed.

Lemma same_inputs_grow h1 h1' h2 h2' inputs1 inputs2 :
  take (length h1) h1' = h1 -> take (length h2) h2' = h2 ->
  same_inputs h1 h2 inputs1 inputs2 -> same_inputs h1' h2' inputs1 inputs2.
Proof.
  intros Hp1 Hp2. apply Forall2_impl. intros v1 v2 (Hv1 & Hv2 & Hv).
  assert (forall (h h' : heap) v, take (length h) h' = h -> v < length h ->
            v < length h' /\ deref h' v = deref h v) as Hgrow.
  { intros h h' v Hp Hlt. split.
    - apply (f_equal length) in Hp. rewrite length_take in Hp. lia.
    - unfold deref. f_equal. rewrite <- Hp. by rewrite lookup_take_lt. }
  destruct (Hgrow _ _ _ Hp1 Hv1) as [? ->], (Hgrow _ _ _ Hp2 Hv2) as [? ->]. done.
Qed.

Lemma BasicResampler_Resample_each_rel inputs1 inputs2 :
  forall x h1 h2,
  same_inputs h1 h2 inputs1 inputs2 ->
  rel (fun w1 w2 => w1.1 = w2.1)
    (BasicResampler_Resample_each inputs1) (BasicResampler_Resample_each inputs2)
    (x, h1) (x, h2).
Proof.
  revert inputs2. induction inputs1 as [|v1 inputs1 IH]; intros inputs2 x h1 h2 Hin;
    inversion Hin as [|? v2 ? inputs2' (Hv1 & Hv2 & Hv) Hrest]; subst; [done|].
  simpl. pose proof (BasicResampler_Resample_rel v1 v2 x h1 h2 Hv1 Hv2 Hv) as [Hres Hx].
  pose proof (BasicResampler_Resample_frame v1 x h1) as Hf1.
  pose proof (BasicResampler_Resample_frame v2 x h2) as Hf2.
  unfold wp in Hf1, Hf2. unfold rel, bind.
  destruct (BasicResampler.Resample v1 (x, h1)) as [[[]|p1] [x1 h1']],
           (BasicResampler.Resample v2 (x, h2)) as [[[]|p2] [x2 h2']];
    simplify_eq/=; [|done].
  apply IH. by eapply same_inputs_grow.
Qed.

Lemma PresampledResampler_Resample_each_rel inputs1 inputs2 :
  forall x h1 h2,
  same_inputs h1 h2 inputs1 inputs2 ->
  rel (fun w1 w2 => w1.1 = w2.1)
    (PresampledResampler_Resample_each inputs1) (PresampledResampler_Resample_each inputs2)
    (x, h1) (x, h2).
Proof.
  revert inputs2. induction inputs1 as [|v1 inputs1 IH]; intros inputs2 x h1 h2 Hin;
    inversion Hin as [|? v2 ? inputs2' (Hv1 & Hv2 & Hv) Hrest]; subst; [done|].
  simpl. pose proof (PresampledResampler_Resample_rel v1 v2 x h1 h2 Hv1 Hv2 Hv) as [Hres Hx].
  pose proof (PresampledResampler_Resample_frame v1 x h1) as Hf1.
  pose proof (PresampledResampler_Resample_frame v2 x h2) as Hf2.
  unfold wp in Hf1, Hf2. unfold rel, bind.
  destruct (PresampledResampler.Resample v1 (x, h1)) as [[[]|p1] [x1 h1']],
           (PresampledResampler.Resample v2 (x, h2)) as [[[]|p2] [x2 h2']];
    simplify_eq/=; [|done].
  apply IH. by eapply same_inputs_grow.
Qed.
End Rel.

(** * The claims *)

(** C7.  [Reset] empties [sampleAggregates] and nothing else, for both
    resamplers: the aggregator, the iteration count, the random source (so the
    next draw continues the sequence) and the presampled table are the ones
    before the call; afterwards [Quantile] returns NaN for every [q]; and a
    second [Reset] changes nothing more. *)
Theorem Reset_only_empties `{P : Platform} :
  (forall x : BasicResampler.t,
     let o := BasicResampler.Reset x in
     o.1 = Ok tt
     /\ BasicResampler.sampleAggregates o.2 = []
     /\ BasicResampler.aggregator o.2 = BasicResampler.aggregator x
     /\ BasicResampler.iterations o.2 = BasicResampler.iterations x
     /\ BasicResampler.r o.2 = BasicResampler.r x
     /\ (forall q, BasicResampler.Quantile o.2 q = Ok NaN)
     /\ BasicResampler.Reset o.2 = o)
  /\ (forall x : PresampledResampler.t,
        let o := PresampledResampler.Reset x in
        o.1 = Ok tt
        /\ PresampledResampler.sampleAggregates o.2 = []
        /\ PresampledResampler.aggregator o.2 = PresampledResampler.aggregator x
        /\ PresampledResampler.iterations o.2 = PresampledResampler.iterations x
        /\ PresampledResampler.samples o.2 = PresampledResampler.samples x
        /\ (forall q, PresampledResampler.Quantile o.2 q = Ok NaN)
        /\ PresampledResampler.Reset o.2 = o).
Proof.
  split; intros x; simpl; repeat split; try done.
Qed.

(** C6.  A [Resample] that returns, on either resampler with a non-negative
    iteration count, keeps every statistic already collected and adds exactly
    [iterations] new ones, and leaves the collection sorted in the order of
    [sort.Float64s]; two calls in a row on a fresh resampler leave twice as
    many statistics as the first call alone. *)
Theorem Resample_accumulates `{P : Platform} `{!PlatformSpec P} :
  (forall values x h,
     let o := BasicResampler.Resample values (x, h) in
     (0 <= BasicResampler.iterations x)%Z -> o.1 = Ok tt ->
     accumulates (BasicResampler.iterations x)
       (BasicResampler.sampleAggregates x) (BasicResampler.sampleAggregates o.2.1))
  /\ (forall values x h,
        let o := PresampledResampler.Resample values (x, h) in
        (0 <= PresampledResampler.iterations x)%Z -> o.1 = Ok tt ->
        accumulates (PresampledResampler.iterations x)
          (PresampledResampler.sampleAggregates x)
          (PresampledResampler.sampleAggregates o.2.1))
  /\ (forall values1 values2 x h,
        let o1 := BasicResampler.Resample values1 (x, h) in
        let o2 := BasicResampler.Resample values2 o1.2 in
        (0 <= BasicResampler.iterations x)%Z ->
        BasicResampler.sampleAggregates x = [] ->
        o1.1 = Ok tt -> o2.1 = Ok tt ->
        length (BasicResampler.sampleAggregates o2.2.1)
        = 2 * length (BasicResampler.sampleAggregates o1.2.1))
  /\ (forall values1 values2 x h,
        let o1 := PresampledResampler.Resample values1 (x, h) in
        let o2 := PresampledResampler.Resample values2 o1.2 in
        (0 <= PresampledResampler.iterations x)%Z ->
        PresampledResampler.sampleAggregates x = [] ->
        o1.1 = Ok tt -> o2.1 = Ok tt ->
        length (PresampledResampler.sampleAggregates o2.2.1)
        = 2 * length (PresampledResampler.sampleAggregates o1.2.1)).
Proof.
  assert (HB : forall values x h,
     let o := BasicResampler.Resample values (x, h) in
     (0 <= BasicResampler.iterations x)%Z -> o.1 = Ok tt ->
     accumulates (BasicResampler.iterations x)
       (BasicResampler.sampleAggregates x) (BasicResampler.sampleAggregates o.2.1)
     /\ BasicResampler.iterations o.2.1 = BasicResampler.iterations x).
  { intros values x h o Hit Hok.
    pose proof (BasicResampler_Resample_post values x h) as Hwp.
    unfold wp in Hwp. fold o in Hwp. rewrite Hok in Hwp.
    destruct Hwp as (Happ & Hi & _). split; [|done].
    by apply appended_accumulates. }
  assert (HP : forall values x h,
     let o := PresampledResampler.Resample values (x, h) in
     (0 <= PresampledResampler.iterations x)%Z -> o.1 = Ok tt ->
     accumulates (PresampledResampler.iterations x)
       (PresampledResampler.sampleAggregates x)
       (PresampledResampler.sampleAggregates o.2.1)
     /\ PresampledResampler.iterations o.2.1 = PresampledResampler.iterations x).
  { intros values x h o Hit Hok.
    pose proof (PresampledResampler_Resample_post values x h) as Hwp.
    unfold wp in Hwp. fold o in Hwp. rewrite Hok in Hwp.
    destruct Hwp as (Happ & Hi & _). split; [|done].
    by apply appended_accumulates. }
  split; [|split; [|split]].
  - intros. by apply HB.
  - intros. by apply HP.
  - intros values1 values2 x h o1 o2 Hit Hnil Hok1 Hok2.
    destruct (HB values1 x h Hit Hok1) as [(_ & _ & Hl1) Hi1]. fold o1 in Hl1, Hi1.
    destruct o1 as [res1 [x1 h1]] eqn:Eo1. simpl in *.
    destruct (HB values2 x1 h1) as [(_ & _ & Hl2) _]; [lia|done|].
    fold o2 in Hl2. rewrite Hnil in Hl1. simpl in Hl1. lia.
  - intros values1 values2 x h o1 o2 Hit Hnil Hok1 Hok2.
    destruct (HP values1 x h Hit Hok1) as [(_ & _ & Hl1) Hi1]. fold o1 in Hl1, Hi1.
    destruct o1 as [res1 [x1 h1]] eqn:Eo1. simpl in *.
    destruct (HP values2 x1 h1) as [(_ & _ & Hl2) _]; [lia|done|].
    fold o2 in Hl2. rewrite Hnil in Hl1. simpl in Hl1. lia.
Qed.

Lemma Resample_accumulates_witness :
  accumulates 3 []
    (BasicResampler.sampleAggregates
       (BasicResampler.Resample 0%nat (sample_basic NewSumAggregator 3, sample_heap)).2.1)
  /\ accumulates 3 []
       (PresampledResampler.sampleAggregates
          (PresampledResampler.Resample (H := sample_platform) 0%nat
             (sample_presampled NewSumAggregator 3 5, sample_heap)).2.1).
Proof.
  split.
  - apply (proj1 (@Resample_accumulates sample_platform sample_platform_spec)
             0%nat (sample_basic NewSumAggregator 3) sample_heap);
      [vm_compute; discriminate | vm_compute; reflexivity].
  - apply (proj1 (proj2 (@Resample_accumulates sample_platform sample_platform_spec))
             0%nat (sample_presampled NewSumAggregator 3 5) sample_heap);
      [vm_compute; discriminate | vm_compute; reflexivity].
Defined.

(** C5.  [NewPresampledResampler] with non-negative [iterations] and
    [numValues] returns a resampler whose table has [iterations] rows of
    [numValues] non-negative counts, each row adding up to [numValues]; and no
    method writes to the table: [Resample] (whether it returns or panics) and
    [Reset] leave [samples] as it was. *)
Theorem presampled_table_invariant `{P : Platform} `{!PlatformSpec P}
    (a : Aggregator) (iterations numValues : Z) :
  (0 <= iterations)%Z -> (0 <= numValues)%Z ->
  (exists x, NewPresampledResampler a iterations numValues = Ok x
     /\ table_ok iterations numValues (PresampledResampler.samples x))
  /\ (forall x values h,
        PresampledResampler.samples (PresampledResampler.Resample values (x, h)).2.1
        = PresampledResampler.samples x)
  /\ (forall x,
        PresampledResampler.samples (PresampledResampler.Reset x).2
        = PresampledResampler.samples x).
Proof.
  intros Hit Hnv. split; [|split].
  - destruct (NewPresampledResampler_ok a iterations numValues Hit Hnv) as (x & Hx & Ht & _).
    by exists x.
  - intros x values h.
    pose proof (PresampledResampler_Resample_post values x h) as Hwp. unfold wp in Hwp.
    destruct (PresampledResampler.Resample values (x, h)) as [[[]|p] w]; simpl in *; tauto.
  - done.
Qed.

Lemma presampled_table_invariant_witness :
  (exists x, NewPresampledResampler (H := sample_platform) NewSumAggregator 3 5 = Ok x
     /\ table_ok 3 5 (PresampledResampler.samples x))
  /\ (forall x values h,
        PresampledResampler.samples
          (PresampledResampler.Resample (H := sample_platform) values (x, h)).2.1
        = PresampledResampler.samples x)
  /\ (forall x,
        PresampledResampler.samples (PresampledResampler.Reset x).2
        = PresampledResampler.samples x).
Proof.
  apply (@presampled_table_invariant sample_platform sample_platform_spec
           NewSumAggregator 3 5); vm_compute; discriminate.
Defined.

(** C8.  With as many values as the table has columns, round [i] of
    [PresampledResampler.Resample] aggregates the scratch slice whose position
    [j] holds [values[j] * float64(samples[i][j])] (values are scaled where
    they stand, never moved), and the call ends as the specification's
    wording gives it: the aggregates appended in row order, then sorted.  The
    collection is extended the way [BasicResampler.Resample] extends it. *)
Theorem PresampledResampler_Resample_scales `{P : Platform}
    (x : PresampledResampler.t) (h : heap) (values : slice) :
  values < length h ->
  Z.of_nat (length (PresampledResampler.samples x)) = PresampledResampler.iterations x ->
  Forall (fun row => length row = length (deref h values)) (PresampledResampler.samples x) ->
  keeps_length (PresampledResampler.aggregator x) ->
  let o := PresampledResampler.Resample values (x, h) in
  match PresampledResampler_Resample_spec x (deref h values) with
  | Ok s => o.1 = Ok tt /\ o.2.1 = PresampledResampler.set_sampleAggregates (fun _ => s) x
  | Panic p => o.1 = Panic p
  end
  /\ (forall row j v c,
        deref h values !! j = Some v -> row !! j = Some c ->
        scaled (deref h values) row !! j = Some (v * float64_of_int c)%float)
  /\ (o.1 = Ok tt ->
      appended (PresampledResampler.iterations x) (PresampledResampler.sampleAggregates x)
        (PresampledResampler.sampleAggregates o.2.1))
  /\ (forall (b : BasicResampler.t) values' h',
        let o' := BasicResampler.Resample values' (b, h') in
        o'.1 = Ok tt ->
        appended (BasicResampler.iterations b) (BasicResampler.sampleAggregates b)
          (BasicResampler.sampleAggregates o'.2.1)).
Proof.
  intros Hv Hit Hrows Hkeep o. split; [|split; [|split]].
  - assert (Hle : Forall (fun row => length (deref h values) <= length row)
                    (PresampledResampler.samples x)).
    { clear -Hrows. induction Hrows; constructor; [lia|done]. }
    pose proof (PresampledResampler_Resample_exact values x h Hv Hit Hle Hkeep) as Hex.
    cbv zeta in Hex. fold o in Hex.
    destruct (PresampledResampler_Resample_spec x (deref h values)) as [s|p]; [|done].
    by destruct Hex as (l' & ->).
  - intros row j v c Hj Hc. unfold scaled. by rewrite lookup_zip_with, Hj, Hc.
  - intros Hok. pose proof (PresampledResampler_Resample_post values x h) as Hwp.
    unfold wp in Hwp. fold o in Hwp. rewrite Hok in Hwp. apply Hwp.
  - intros b values' h' o' Hok.
    pose proof (BasicResampler_Resample_post values' b h') as Hwp.
    unfold wp in Hwp. fold o' in Hwp. rewrite Hok in Hwp. apply Hwp.
Qed.

Lemma PresampledResampler_Resample_scales_witness :
  let x := sample_presampled NewSumAggregator 3 5 in
  let o := PresampledResampler.Resample (H := sample_platform) 0%nat (x, sample_heap) in
  match PresampledResampler_Resample_spec (H := sample_platform) x (deref sample_heap 0) with
  | Ok s => o.1 = Ok tt /\ o.2.1 = PresampledResampler.set_sampleAggregates (fun _ => s) x
  | Panic p => o.1 = Panic p
  end.
Proof.
  intros x o.
  assert (H1 : 0 < length sample_heap) by (vm_compute; lia).
  assert (H2 : Z.of_nat (length (PresampledResampler.samples x))
               = PresampledResampler.iterations x) by (vm_compute; reflexivity).
  assert (H3 : Forall (fun row => length row = length (deref sample_heap 0))
                 (PresampledResampler.samples x)) by (vm_compute; repeat constructor).
  assert (H4 : keeps_length (PresampledResampler.aggregator x))
    by (intros l; vm_compute; reflexivity).
  pose proof (@PresampledResampler_Resample_scales sample_platform x sample_heap 0%nat
                H1 H2 H3 H4) as H.
  cbv zeta in H. destruct H as [H _]. exact H.
Defined.

(** C1, as the code has it.  [PresampledResampler.Resample] does not compare
    [len(values)] with the number of columns.  With more values than columns
    (and at least one iteration) the first round panics on the first missing
    column and the resampler is as before the call.  With fewer values than
    columns the call is not rejected: each value is scaled by the count in its
    own column, the columns past [len(values)] are ignored, and the call ends
    as the specification's wording gives it. *)
Theorem PresampledResampler_Resample_length_mismatch `{P : Platform}
    (x : PresampledResampler.t) (h : heap) (values : slice) (numValues : nat) :
  values < length h ->
  Z.of_nat (length (PresampledResampler.samples x)) = PresampledResampler.iterations x ->
  Forall (fun row => length row = numValues) (PresampledResampler.samples x) ->
  keeps_length (PresampledResampler.aggregator x) ->
  let o := PresampledResampler.Resample values (x, h) in
  (numValues < length (deref h values) -> (1 <= PresampledResampler.iterations x)%Z ->
   o.1 = Panic IndexOutOfRange /\ o.2.1 = x)
  /\ (length (deref h values) < numValues ->
      match PresampledResampler_Resample_spec x (deref h values) with
      | Ok s => o.1 = Ok tt /\ o.2.1 = PresampledResampler.set_sampleAggregates (fun _ => s) x
      | Panic p => o.1 = Panic p
      end
      /\ forall row, scaled (deref h values) row
                     = scaled (deref h values) (take (length (deref h values)) row)).
Proof.
  intros Hv Hit Hrows Hkeep o. split.
  - intros Hlt Hit1.
    destruct (PresampledResampler.samples x) as [|row rows] eqn:Es; [simpl in Hit; lia|].
    apply (PresampledResampler_Resample_short_row values x h row); [done|by rewrite Es|].
    apply Forall_inv in Hrows. lia.
  - intros Hlt. split.
    + assert (Hle : Forall (fun row => length (deref h values) <= length row)
                      (PresampledResampler.samples x)).
      { clear -Hrows Hlt. induction Hrows; constructor; [lia|done]. }
      pose proof (PresampledResampler_Resample_exact values x h Hv Hit Hle Hkeep) as Hex.
      cbv zeta in Hex. fold o in Hex.
      destruct (PresampledResampler_Resample_spec x (deref h values)) as [s|p]; [|done].
      by destruct Hex as (l' & ->).
    + intros row. unfold scaled. generalize (deref h values). clear.
      intros l. revert row. induction l as [|v l IH]; intros [|c row]; simpl; [done..|].
      by rewrite <- IH.
Qed.

Lemma PresampledResampler_Resample_length_mismatch_witness :
  let x := sample_presampled NewSumAggregator 3 7 in
  let o := PresampledResampler.Resample (H := sample_platform) 0%nat (x, sample_heap) in
  match PresampledResampler_Resample_spec (H := sample_platform) x (deref sample_heap 0) with
  | Ok s => o.1 = Ok tt /\ o.2.1 = PresampledResampler.set_sampleAggregates (fun _ => s) x
  | Panic p => o.1 = Panic p
  end.
Proof.
  intros x o.
  assert (H1 : 0 < length sample_heap) by (vm_compute; lia).
  assert (H2 : Z.of_nat (length (PresampledResampler.samples x))
               = PresampledResampler.iterations x) by (vm_compute; reflexivity).
  assert (H3 : Forall (fun row => length row = 7) (PresampledResampler.samples x))
    by (vm_compute; repeat constructor).
  assert (H4 : keeps_length (PresampledResampler.aggregator x))
    by (intros l; vm_compute; reflexivity).
  assert (H5 : length (deref sample_heap 0) < 7) by (vm_compute; lia).
  pose proof (@PresampledResampler_Resample_length_mismatch sample_platform
                x sample_heap 0%nat 7%nat H1 H2 H3 H4) as H.
  cbv zeta in H. destruct H as [_ H]. destruct (H H5) as [H' _]. exact H'.
Defined.

(** C1 as stated fails: a table built for 7 values, resampled with 5 values,
    is not rejected; the call returns and three statistics are appended. *)
Lemma PresampledResampler_Resample_length_mismatch_accepted :
  let x := sample_presampled NewSumAggregator 3 7 in
  let o := PresampledResampler.Resample (H := sample_platform) 0%nat (x, sample_heap) in
  length (deref sample_heap 0) = 5
  /\ Forall (fun row => length row = 7) (PresampledResampler.samples x)
  /\ o.1 = Ok tt
  /\ PresampledResampler.sampleAggregates x = []
  /\ PresampledResampler.sampleAggregates o.2.1 = [2; 7; 11]%float
  /\ ~ rejected x o.
Proof.
  intros x o.
  split; [vm_compute; reflexivity|].
  split; [vm_compute; repeat constructor|].
  split; [vm_compute; reflexivity|].
  split; [vm_compute; reflexivity|].
  split; [vm_compute; reflexivity|].
  intros [[p Hp] _]. vm_compute in Hp. discriminate.
Qed.

(** C2, as the code has it.  [BasicResampler.Resample] on an empty slice is
    not rejected and does not fault: with no position to fill, the index
    expression (and its remainder by the length) is never evaluated and the
    random source is not advanced; every round aggregates the empty scratch
    slice, so [iterations] copies of that aggregate are appended, and the
    collection is sorted.  The aggregate of the empty slice is 0 for the sum
    and the average and NaN for a quantile. *)
Theorem BasicResampler_Resample_empty_values `{P : Platform} `{!PlatformSpec P} :
  (forall (x : BasicResampler.t) (h : heap) (values : slice) (a0 : float64),
     deref h values = [] ->
     Aggregate (BasicResampler.aggregator x) [] = (Ok a0, []) ->
     let o := BasicResampler.Resample values (x, h) in
     o.1 = Ok tt
     /\ BasicResampler.sampleAggregates o.2.1
        = Float64s (BasicResampler.sampleAggregates x
                    ++ replicate (Z.to_nat (BasicResampler.iterations x)) a0)
     /\ BasicResampler.r o.2.1 = BasicResampler.r x)
  /\ Aggregate NewSumAggregator [] = (Ok 0%float, [])
  /\ Aggregate NewAverageAggregator [] = (Ok 0%float, [])
  /\ (forall q, Aggregate (NewQuantileAggregator q) [] = (Ok NaN, [])).
Proof.
  split; [|split; [done|split; [done|]]].
  - intros x h values a0 Hnil Ha o. subst o.
    by rewrite (BasicResampler_Resample_empty values x h a0 Hnil Ha).
  - intros q. simpl. unfold QuantileAggregator.Aggregate, bind, modify. simpl.
    pose proof (Float64s_Permutation []) as Hp. apply Permutation_nil_r in Hp.
    by rewrite Hp.
Qed.

Lemma BasicResampler_Resample_empty_values_witness :
  let x := sample_basic NewSumAggregator 3 in
  let o := BasicResampler.Resample 1%nat (x, sample_heap) in
  o.1 = Ok tt
  /\ BasicResampler.sampleAggregates o.2.1
     = insertion_sort (BasicResampler.sampleAggregates x ++ replicate (Z.to_nat 3) 0%float)
  /\ BasicResampler.r o.2.1 = BasicResampler.r x.
Proof.
  apply (proj1 (@BasicResampler_Resample_empty_values sample_platform sample_platform_spec)
           (sample_basic NewSumAggregator 3) sample_heap 1%nat 0%float);
    vm_compute; reflexivity.
Defined.

(** C2 as stated fails: resampling the empty slice returns, and one statistic
    per iteration is appended. *)
Lemma BasicResampler_Resample_empty_accepted :
  let x := sample_basic NewSumAggregator 3 in
  let o := BasicResampler.Resample 1%nat (x, sample_heap) in
  deref sample_heap 1 = []
  /\ o.1 = Ok tt
  /\ BasicResampler.sampleAggregates x = []
  /\ BasicResampler.sampleAggregates o.2.1 = [0; 0; 0]%float
  /\ ~ rejected x o.
Proof.
  intros x o.
  split; [vm_compute; reflexivity|].
  split; [vm_compute; reflexivity|].
  split; [vm_compute; reflexivity|].
  split; [vm_compute; reflexivity|].
  intros [[p Hp] _]. vm_compute in Hp. discriminate.
Qed.

(** C10.  Whatever the aggregator does to the slice it is handed, and whether
    the call returns or panics, [Resample] leaves every slice that was in the
    store when it was called as it was, the caller's [values] among them: it
    writes to the scratch slice it allocates and to nothing else. *)
Theorem Resample_keeps_values `{P : Platform} :
  (forall (x : BasicResampler.t) (h : heap) (values : slice),
     let o := BasicResampler.Resample values (x, h) in
     take (length h) o.2.2 = h
     /\ (values < length h -> deref o.2.2 values = deref h values))
  /\ (forall (x : PresampledResampler.t) (h : heap) (values : slice),
        let o := PresampledResampler.Resample values (x, h) in
        take (length h) o.2.2 = h
        /\ (values < length h -> deref o.2.2 values = deref h values)).
Proof.
  assert (Hpre : forall (h h' : heap) v,
            take (length h) h' = h -> v < length h -> deref h' v = deref h v).
  { intros h h' v Hp Hlt. unfold deref. f_equal. rewrite <- Hp. by rewrite lookup_take_lt. }
  split; intros x h values o.
  - pose proof (BasicResampler_Resample_frame values x h) as Hf. unfold wp in Hf.
    split; [done|]. by apply Hpre.
  - pose proof (PresampledResampler_Resample_frame values x h) as Hf. unfold wp in Hf.
    split; [done|]. by apply Hpre.
Qed.

(** C9.  Two [BasicResampler]s built from the same aggregator and iteration
    count, or two [PresampledResampler]s built from the same aggregator,
    iteration count and number of values, each run in a store of its own on
    inputs holding the same values, end alike: the same outcome, the same
    [sampleAggregates], and the same [Quantile] for every [q]. *)
Theorem Resample_deterministic `{P : Platform} :
  (forall a iterations h1 h2 inputs1 inputs2,
     same_inputs h1 h2 inputs1 inputs2 ->
     let o1 := BasicResampler_Resample_each inputs1 (NewBasicResampler a iterations, h1) in
     let o2 := BasicResampler_Resample_each inputs2 (NewBasicResampler a iterations, h2) in
     o1.1 = o2.1
     /\ BasicResampler.sampleAggregates o1.2.1 = BasicResampler.sampleAggregates o2.2.1
     /\ forall q, BasicResampler.Quantile o1.2.1 q = BasicResampler.Quantile o2.2.1 q)
  /\ (forall a iterations numValues x1 x2 h1 h2 inputs1 inputs2,
        NewPresampledResampler a iterations numValues = Ok x1 ->
        NewPresampledResampler a iterations numValues = Ok x2 ->
        same_inputs h1 h2 inputs1 inputs2 ->
        let o1 := PresampledResampler_Resample_each inputs1 (x1, h1) in
        let o2 := PresampledResampler_Resample_each inputs2 (x2, h2) in
        o1.1 = o2.1
        /\ PresampledResampler.sampleAggregates o1.2.1
           = PresampledResampler.sampleAggregates o2.2.1
        /\ forall q, PresampledResampler.Quantile o1.2.1 q
                     = PresampledResampler.Quantile o2.2.1 q).
Proof.
  split.
  - intros a iterations h1 h2 inputs1 inputs2 Hin o1 o2.
    destruct (BasicResampler_Resample_each_rel inputs1 inputs2
                (NewBasicResampler a iterations) h1 h2 Hin) as [Hres Hx].
    fold o1 o2 in Hres, Hx. by rewrite Hx.
  - intros a iterations numValues x1 x2 h1 h2 inputs1 inputs2 H1 H2 Hin o1 o2.
    assert (x2 = x1) by congruence. subst x2.
    destruct (PresampledResampler_Resample_each_rel inputs1 inputs2 x1 h1 h2 Hin)
      as [Hres Hx].
    fold o1 o2 in Hres, Hx. by rewrite Hx.
Qed.

Lemma Resample_deterministic_witness :
  let h1 : heap := sample_heap in
  let h2 : heap := [[7]%float; []; [0; 1; 2; 3; 4]%float] in
  let o1 := BasicResampler_Resample_each [0%nat; 1%nat]
              (sample_basic (NewQuantileAggregator (H := sample_platform) 0.5) 3, h1) in
  let o2 := BasicResampler_Resample_each [2%nat; 1%nat]
              (sample_basic (NewQuantileAggregator (H := sample_platform) 0.5) 3, h2) in
  o1.1 = o2.1
  /\ BasicResampler.sampleAggregates o1.2.1 = BasicResampler.sampleAggregates o2.2.1
  /\ forall q, BasicResampler.Quantile o1.2.1 q = BasicResampler.Quantile o2.2.1 q.
Proof.
  apply (proj1 (@Resample_deterministic sample_platform)).
  repeat constructor.
Defined.

Lemma Resample_keeps_values_witness :
  let x := sample_basic (NewQuantileAggregator (H := sample_platform) 0.5) 4 in
  let o := BasicResampler.Resample 0%nat (x, sample_heap) in
  take (length sample_heap) o.2.2 = sample_heap
  /\ (0 < length sample_heap -> deref o.2.2 0 = deref sample_heap 0).
Proof.
  apply (proj1 (@Resample_keeps_values sample_platform)).
Defined.

(** * Rounding of binary64 products *)

Section Rounding.
Local Open Scope Z_scope.


Lemma digits2_pos_bounds (p : positive) :
  2 ^ (Zpos (digits2_pos p) - 1) <= Zpos p < 2 ^ Zpos (digits2_pos p).
Proof.
  induction p as [p IH|p IH|]; simpl digits2_pos; [| |simpl; lia];
    rewrite Pos2Z.inj_succ;
    replace (Z.succ (Zpos (digits2_pos p)) - 1) with (Z.succ (Zpos (digits2_pos p) - 1)) by lia;
    rewrite !Z.pow_succ_r by lia; lia.
Qed.

Lemma div_pow2_succ (M n : Z) : 0 <= n -> M / 2 ^ (n + 1) = M / 2 ^ n / 2.
Proof.
  intros Hn. rewrite Z.pow_add_r by lia. rewrite Z.div_div by lia. f_equal.
Qed.

Lemma mod_pow2_succ (M n : Z) :
  0 <= n -> M mod 2 ^ (n + 1) = 0 -> M mod 2 ^ n = 0 /\ (M / 2 ^ n) mod 2 = 0.
Proof.
  intros Hn HM. apply Z.mod_divide in HM; [|lia]. destruct HM as [c Hc].
  rewrite Z.pow_add_r in Hc by lia.
  assert (0 < 2 ^ n) by lia.
  replace M with ((2 * c) * 2 ^ n) by (rewrite Hc; ring).
  rewrite Z.mod_mul, Z.div_mul by lia. split; [done|].
  rewrite Z.mul_comm. apply Z.mod_mul. lia.
Qed.

Lemma shr_1_inv (M n : Z) mrs :
  0 <= M -> 0 <= n -> shr_inv M n mrs -> shr_inv M (n + 1) (shr_1 mrs).
Proof.
  intros HM Hn [Hm Hex]. destruct mrs as [m r s]. cbn [shr_m shr_r shr_s] in *.
  assert (0 <= m) by (subst m; apply Z.div_pos; lia).
  unfold shr_inv. rewrite div_pow2_succ by done. rewrite <- Hm.
  split.
  - destruct m as [|[p|p|]|]; cbn [shr_1 shr_m]; try lia.
    + done.
    + rewrite Pos2Z.inj_xI. apply (Z.div_unique _ 2 _ 1); lia.
    + rewrite Pos2Z.inj_xO. apply (Z.div_unique _ 2 _ 0); lia.
    + done.
  - intros Hmod. apply mod_pow2_succ in Hmod as [Hmod Heven]; [|done].
    destruct (Hex Hmod) as [-> ->]. rewrite <- Hm in Heven.
    destruct m as [|[p|p|]|]; cbn [shr_1 shr_r shr_s orb]; try done; try lia.
    all: exfalso; clear -Heven.
    + rewrite Pos2Z.inj_xI in Heven.
      pose proof (Z.mod_unique (2 * Zpos p + 1) 2 (Zpos p) 1 ltac:(lia) ltac:(lia)). lia.
Qed.

Lemma iter_pos_shr_inv (M : Z) (p : positive) :
  0 <= M -> forall n mrs, 0 <= n -> shr_inv M n mrs ->
  shr_inv M (n + Zpos p) (SpecFloat.iter_pos shr_1 p mrs).
Proof.
  intros HM. induction p as [p IH|p IH|]; intros n mrs Hn Hinv; simpl.
  - replace (n + Zpos p~1) with (n + 1 + Zpos p + Zpos p) by lia.
    apply IH; [lia|]. apply IH; [lia|]. by apply shr_1_inv.
  - replace (n + Zpos p~0) with (n + Zpos p + Zpos p) by lia.
    apply IH; [lia|]. by apply IH.
  - by apply shr_1_inv.
Qed.

Lemma shr_fexp_Exact (M E : Z) :
  0 <= M ->
  let '(mrs, e1) := shr_fexp prec emax M E loc_Exact in
  E <= e1 /\ shr_inv M (e1 - E) mrs
  /\ e1 = Z.max E (fexp prec emax (Zdigits2 M + E)).
Proof.
  intros HM. unfold shr_fexp, shr. cbn [shr_record_of_loc].
  assert (Hinit : shr_inv M 0 {| shr_m := M; shr_r := false; shr_s := false |}).
  { split; [|done]. cbn [shr_m]. by rewrite Z.pow_0_r, Z.div_1_r. }
  destruct (fexp prec emax (Zdigits2 M + E) - E) as [|p|p] eqn:En.
  - rewrite Z.sub_diag. split; [lia|]. split; [done|]. lia.
  - replace (E + Z.pos p - E) with (0 + Z.pos p) by lia.
    split; [lia|]. split; [by apply iter_pos_shr_inv|]. lia.
  - rewrite Z.sub_diag. split; [lia|]. split; [done|]. lia.
Qed.

Lemma round_nearest_even_bounds (mrs : shr_record) :
  let m' := round_nearest_even (shr_m mrs) (loc_of_shr_record mrs) in
  shr_m mrs <= m' <= shr_m mrs + 1
  /\ (shr_r mrs = false -> shr_s mrs = false -> m' = shr_m mrs).
Proof.
  destruct mrs as [m [] []]; cbn; try destruct (Z.even m); split; try lia; try done.
Qed.

Lemma pow2_pos (n : Z) : 0 <= n -> 0 < 2 ^ n.
Proof. intros. apply Z.pow_pos_nonneg; lia. Qed.

Lemma val_le_digits (p : positive) (E k : Z) :
  -2200 <= E -> k < 2 ^ 53 -> val_le (Zpos p) E k ->
  Zpos (digits2_pos p) + E <= 53.
Proof.
  unfold val_le. intros HE Hk Hle.
  pose proof (digits2_pos_bounds p) as [Hd _].
  remember 2200 as B eqn:HB.
  pose proof (pow2_pos (E + B) ltac:(lia)) as H1.
  pose proof (pow2_pos B ltac:(lia)) as H2.
  assert (2 ^ (Zpos (digits2_pos p) - 1 + (E + B)) < 2 ^ (53 + B)) as Hlt.
  { rewrite (Z.pow_add_r 2 (Zpos (digits2_pos p) - 1)), (Z.pow_add_r 2 53) by lia.
    apply Z.le_lt_trans with (Zpos p * 2 ^ (E + B));
      [apply Z.mul_le_mono_nonneg_r; lia|].
    apply Z.le_lt_trans with (k * 2 ^ B); [done|].
    apply Z.mul_lt_mono_pos_r; lia. }
  apply Z.pow_lt_mono_r_iff in Hlt; lia.
Qed.

Lemma stage1_val_le (p : positive) (E k : Z) mrs e1 :
  -2200 <= E -> 0 <= k < 2 ^ 53 -> val_le (Zpos p) E k ->
  shr_fexp prec emax (Zpos p) E loc_Exact = (mrs, e1) ->
  let m' := round_nearest_even (shr_m mrs) (loc_of_shr_record mrs) in
  val_le m' e1 k /\ E <= e1 /\ 0 <= m'.
Proof.
  intros HE Hk Hle Hshr m'.
  pose proof (shr_fexp_Exact (Zpos p) E ltac:(lia)) as Hs. rewrite Hshr in Hs.
  destruct Hs as (HEe1 & [Hm Hex] & He1).
  pose proof (round_nearest_even_bounds mrs) as [Hb Hbe]. fold m' in Hb, Hbe.
  pose proof (pow2_pos (e1 - E) ltac:(lia)) as HP.
  assert (0 <= shr_m mrs) as Hm0 by (rewrite Hm; apply Z.div_pos; lia).
  split; [|split; [done|lia]].
  destruct (Z.eq_dec e1 E) as [->|Hne].
  - rewrite Z.sub_diag, Z.pow_0_r in Hm, Hex. rewrite Z.div_1_r in Hm.
    destruct (Hex (Z.mod_1_r _)) as [Hr Hs]. rewrite (Hbe Hr Hs), Hm. done.
  - assert (e1 = fexp prec emax (Zdigits2 (Zpos p) + E)) as He1' by lia.
    clear He1. rename He1' into He1.
    pose proof (val_le_digits p E k HE ltac:(lia) Hle) as Hd.
    assert (e1 <= 0) as He10.
    { rewrite He1. unfold fexp, SpecFloat.emin, prec, emax. cbn [Zdigits2]. lia. }
    unfold val_le in *. remember 2200 as B eqn:HB.
    set (n := e1 - E) in *. set (m1 := shr_m mrs) in *.
    pose proof (pow2_pos (E + B) ltac:(lia)) as H1.
    pose proof (pow2_pos (- e1) ltac:(lia)) as H2.
    pose proof (pow2_pos (e1 + B) ltac:(lia)) as H3.
    assert (2 ^ B = 2 ^ (- e1) * 2 ^ n * 2 ^ (E + B)) as HB1.
    { rewrite <- !Z.pow_add_r by lia. f_equal. lia. }
    assert (2 ^ B = 2 ^ (- e1) * 2 ^ (e1 + B)) as HB2.
    { rewrite <- !Z.pow_add_r by lia. f_equal. lia. }
    assert (Zpos p <= k * 2 ^ (- e1) * 2 ^ n) as HM.
    { rewrite HB1 in Hle. apply (Z.mul_le_mono_pos_r _ _ (2 ^ (E + B))); [done|].
      etrans; [exact Hle|]. apply Z.eq_le_incl. ring. }
    pose proof (Z.div_mod (Zpos p) (2 ^ n) ltac:(lia)) as Hdm.
    pose proof (Z.mod_pos_bound (Zpos p) (2 ^ n) HP) as Hr.
    rewrite <- Hm in Hdm.
    assert (m' <= k * 2 ^ (- e1)) as Hm'.
    { destruct (Z.eq_dec (Zpos p mod 2 ^ n) 0) as [Hz|Hnz].
      - destruct (Hex Hz) as [Hr' Hs']. rewrite (Hbe Hr' Hs'). nia.
      - assert (m1 < k * 2 ^ (- e1)) by nia. lia. }
    rewrite HB2. nia.
Qed.

Lemma stage2_val_le (m' e1 k : Z) mrs e2 :
  0 <= m' -> -2200 <= e1 -> 0 <= k -> val_le m' e1 k ->
  shr_fexp prec emax m' e1 loc_Exact = (mrs, e2) ->
  val_le (shr_m mrs) e2 k /\ e1 <= e2 /\ 0 <= shr_m mrs.
Proof.
  intros Hm' He1 Hk Hle Hshr.
  pose proof (shr_fexp_Exact m' e1 Hm') as Hs. rewrite Hshr in Hs.
  destruct Hs as (He & [Hm _] & _).
  pose proof (pow2_pos (e2 - e1) ltac:(lia)) as HP.
  assert (0 <= shr_m mrs) as Hm0 by (rewrite Hm; apply Z.div_pos; lia).
  split; [|split; [done|done]].
  unfold val_le in *. remember 2200 as B eqn:HB.
  pose proof (pow2_pos (e1 + B) ltac:(lia)) as H1.
  replace (e2 + B) with ((e2 - e1) + (e1 + B)) by lia.
  rewrite Z.pow_add_r by lia.
  pose proof (Z.mul_div_le m' (2 ^ (e2 - e1)) HP) as Hfl. rewrite <- Hm in Hfl.
  etrans; [|exact Hle]. rewrite Z.mul_assoc.
  apply Z.mul_le_mono_nonneg_r; lia.
Qed.

Lemma val_le_exponent (m e k : Z) :
  0 < m -> -2200 <= e -> k < 2 ^ 53 -> val_le m e k -> e < 53.
Proof.
  unfold val_le. intros Hm He Hk Hle. remember 2200 as B eqn:HB.
  pose proof (pow2_pos (e + B) ltac:(lia)) as H1.
  pose proof (pow2_pos B ltac:(lia)) as H2.
  assert (2 ^ (e + B) < 2 ^ (53 + B)) as Hlt.
  { rewrite (Z.pow_add_r 2 53) by lia.
    apply Z.le_lt_trans with (m * 2 ^ (e + B)); [nia|].
    apply Z.le_lt_trans with (k * 2 ^ B); [done|].
    apply Z.mul_lt_mono_pos_r; lia. }
  apply Z.pow_lt_mono_r_iff in Hlt; lia.
Qed.

(** Rounding a positive number that is at most the integer [k < 2^53] gives
    a non-negative binary64 number that is at most [k]. *)
Lemma binary_round_aux_le (p : positive) (E k : Z) :
  -2200 <= E -> 0 <= k < 2 ^ 53 -> val_le (Zpos p) E k ->
  SF_le (binary_round_aux prec emax false (Zpos p) E loc_Exact) k.
Proof.
  intros HE Hk Hle. unfold binary_round_aux.
  destruct (shr_fexp prec emax (Zpos p) E loc_Exact) as [mrs1 e1] eqn:E1.
  destruct (stage1_val_le p E k mrs1 e1 HE Hk Hle E1) as (Hle1 & He1 & Hm1).
  destruct (shr_fexp prec emax _ e1 loc_Exact) as [mrs2 e2] eqn:E2.
  destruct (stage2_val_le _ e1 k mrs2 e2 Hm1 ltac:(lia) ltac:(lia) Hle1 E2)
    as (Hle2 & He2 & Hm2).
  destruct (shr_m mrs2) as [|m2|m2] eqn:Em2; [done| |lia].
  pose proof (val_le_exponent (Zpos m2) e2 k ltac:(lia) ltac:(lia) ltac:(lia) Hle2) as Hlt.
  destruct (Z.leb_spec e2 (emax - prec)) as [_|Hgt].
  - split; [done|lia].
  - unfold emax, prec in Hgt. lia.
Qed.

Lemma SFtrunc_le (x : spec_float) (k : Z) :
  0 <= k -> SF_le x k -> exists z, SFtrunc x = Some z /\ 0 <= z <= k.
Proof.
  intros Hk Hx. destruct x as [s| | |[] m e]; try done.
  - exists 0. split; [done|lia].
  - destruct Hx as [Hle He]. unfold val_le in Hle. remember 2200 as B eqn:HB.
    pose proof (pow2_pos B ltac:(lia)) as H2.
    destruct e as [|q|q]; cbn [SFtrunc]; eexists; (split; [done|]).
    + rewrite Z.add_0_l in Hle. split; [lia|]. nia.
    + pose proof (pow2_pos (Zpos q) ltac:(lia)) as H1.
      rewrite Z.pow_add_r in Hle by lia. split; [lia|]. nia.
    + pose proof (pow2_pos (Zpos q) ltac:(lia)) as H1.
      pose proof (pow2_pos (Zneg q + B) ltac:(lia)) as H3.
      assert (2 ^ B = 2 ^ Zpos q * 2 ^ (Zneg q + B)) as HB2.
      { rewrite <- Z.pow_add_r by lia. f_equal. lia. }
      split; [apply Z.div_pos; lia|].
      apply Z.div_le_upper_bound; [done|]. rewrite HB2 in Hle. nia.
Qed.

End Rounding.

(** * The index computed by [quantile] *)

Section Index.
Local Open Scope Z_scope.


Lemma Pos_iter_xO (p d : positive) : Zpos (Pos.iter xO p d) = Zpos p * 2 ^ Zpos d.
Proof.
  induction d as [|d IH] using Pos.peano_ind.
  - simpl. lia.
  - rewrite Pos.iter_succ, Pos2Z.inj_xO, IH, Pos2Z.inj_succ, Z.pow_succ_r by lia. ring.
Qed.

Lemma shl_align_val (mx : positive) (ex ex' : Z) :
  let '(mz, ez) := shl_align mx ex ex' in
  ez = Z.min ex ex' /\ Zpos mz = Zpos mx * 2 ^ (ex - ez).
Proof.
  unfold shl_align. destruct (ex' - ex) as [|d|d] eqn:Ed.
  - rewrite Z.sub_diag. simpl. lia.
  - rewrite Z.sub_diag. simpl. lia.
  - split; [lia|]. rewrite Pos_iter_xO. do 2 f_equal. lia.
Qed.

(** [float64(k)] for [0 <= k < 2^53] is a non-negative number of value at
    most [k]. *)
Lemma float64_of_int_le (k : Z) :
  0 <= k < 2 ^ 53 -> SF_le (Prim2SF (float64_of_int k)) k.
Proof.
  intros Hk. unfold float64_of_int.
  destruct (Z.leb_spec 0 k) as [_|]; [|lia].
  rewrite of_uint63_spec, Uint63.of_Z_spec.
  rewrite Z.mod_small by (change wB with (2 ^ 63); lia).
  destruct k as [|p|p]; [done| |lia]. cbn [binary_normalize]. unfold binary_round.
  pose proof (shl_align_val p 0 (fexp prec emax (Zpos (digits2_pos p) + 0))) as Hs.
  destruct (shl_align _ _ _) as [mz ez]. destruct Hs as (Hez & Hmz).
  assert (-2200 <= ez <= 0) as Hlow.
  { rewrite Hez. unfold fexp, SpecFloat.emin, prec, emax. lia. }
  apply binary_round_aux_le; [lia|lia|].
  unfold val_le. rewrite Hmz, <- Z.mul_assoc, <- Z.pow_add_r by lia.
  apply Z.eq_le_incl. do 2 f_equal. lia.
Qed.

Lemma valid_binary_finite (s : bool) (m : positive) (e : Z) :
  valid_binary (S754_finite s m e) = true ->
  -1074 <= e /\ Zpos (digits2_pos m) <= 53.
Proof.
  cbn [SpecFloat.valid_binary]. unfold bounded, canonical_mantissa. intros H.
  apply andb_true_iff in H as [H _]. apply Z.eqb_eq in H.
  unfold fexp, SpecFloat.emin, prec, emax in H. lia.
Qed.

Lemma compare_cont_le (m c : positive) :
  PosDef.Pos.compare_cont Eq m c <> Gt -> Zpos m <= Zpos c.
Proof.
  change (PosDef.Pos.compare_cont Eq m c) with (m ?= c)%positive.
  destruct (Pos.compare_spec m c); [lia|lia|done].
Qed.

(** A float between 0 and 1 is a non-negative number of value at most 1. *)
Lemma unit_interval_le (q : float64) :
  (0 <=? q)%float = true -> (q <=? 1)%float = true ->
  SF_le (Prim2SF q) 1 /\ valid_binary (Prim2SF q) = true.
Proof.
  rewrite !FloatAxioms.leb_spec. intros H0 H1.
  pose proof (Prim2SF_valid q) as Hv. split; [|done].
  change (Prim2SF 0) with (S754_zero false) in H0.
  change (Prim2SF 1) with (S754_finite false 4503599627370496 (-52)) in H1.
  destruct (Prim2SF q) as [s|[]| |[] m e]; try done.
  destruct (valid_binary_finite _ _ _ Hv) as [He Hd].
  pose proof (digits2_pos_bounds m) as [_ Hm].
  split; [|lia]. unfold val_le.
  unfold SFleb, SFcompare in H1.
  assert (Zpos m < 2 ^ 53) as Hm53.
  { eapply Z.lt_le_trans; [exact Hm|]. apply Z.pow_le_mono_r; lia. }
  remember 2200 as B eqn:HB.
  pose proof (pow2_pos (e + B) ltac:(lia)) as Hp.
  destruct (Z.compare_spec e (-52)) as [->|Hlt|Hgt]; [| |done].
  - assert (Zpos m <= 2 ^ 52) as Hle.
    { apply (compare_cont_le m 4503599627370496). by destruct (PosDef.Pos.compare_cont _ _ _). }
    replace (1 * 2 ^ B) with (2 ^ 52 * 2 ^ (-52 + B)).
    + apply Z.mul_le_mono_nonneg_r; lia.
    + rewrite <- Z.pow_add_r by lia. rewrite Z.mul_1_l. f_equal. lia.
  - replace (1 * 2 ^ B) with (2 ^ (- e) * 2 ^ (e + B)).
    + apply Z.mul_le_mono_nonneg_r; [lia|].
      apply Z.lt_le_incl. eapply Z.lt_le_trans; [exact Hm53|].
      apply Z.pow_le_mono_r; lia.
    + rewrite <- Z.pow_add_r by lia. rewrite Z.mul_1_l. f_equal. lia.
Qed.

Lemma SFmul_le (x y : spec_float) (k : Z) :
  0 <= k < 2 ^ 53 -> SF_le x 1 -> SF_le y k ->
  valid_binary x = true -> valid_binary y = true ->
  SF_le (SF64mul x y) k.
Proof.
  intros Hk Hx Hy Hvx Hvy.
  destruct x as [sx| | |[] mx ex], y as [sy| | |[] my ey]; try done.
  destruct Hx as [Hx _], Hy as [Hy _].
  destruct (valid_binary_finite _ _ _ Hvx) as [Hex _].
  destruct (valid_binary_finite _ _ _ Hvy) as [Hey _].
  unfold SF64mul, SFmul. cbn [xorb].
  apply binary_round_aux_le; [lia|done|].
  unfold val_le in *. rewrite Pos2Z.inj_mul. remember 2200 as B eqn:HB.
  pose proof (pow2_pos B ltac:(lia)) as HpB.
  pose proof (pow2_pos (ex + B) ltac:(lia)) as Hpx.
  pose proof (pow2_pos (ey + B) ltac:(lia)) as Hpy.
  assert (2 ^ (ex + B) * 2 ^ (ey + B) = 2 ^ (ex + ey + B) * 2 ^ B) as Hsplit.
  { rewrite <- !Z.pow_add_r by lia. f_equal. lia. }
  apply (Z.mul_le_mono_pos_r _ _ (2 ^ B)); [done|].
  replace (Zpos mx * Zpos my * 2 ^ (ex + ey + B) * 2 ^ B)
    with ((Zpos mx * 2 ^ (ex + B)) * (Zpos my * 2 ^ (ey + B)))
    by (transitivity (Zpos mx * Zpos my * (2 ^ (ex + B) * 2 ^ (ey + B)));
        [ring|rewrite Hsplit; ring]).
  replace (k * 2 ^ B * 2 ^ B) with ((1 * 2 ^ B) * (k * 2 ^ B)) by ring.
  apply Z.mul_le_mono_nonneg; lia.
Qed.

(** The index [int(q * float64(k))] computed by [quantile] lies between 0
    and [k], for [q] between 0 and 1 and [k] below [2^53]. *)
Lemma int_of_float64_mul_range `{Platform} (q : float64) (k : Z) :
  (0 <=? q)%float = true -> (q <=? 1)%float = true -> 0 <= k < 2 ^ 53 ->
  0 <= int_of_float64 (q * float64_of_int k)%float <= k.
Proof.
  intros H0 H1 Hk. unfold int_of_float64. rewrite FloatAxioms.mul_spec.
  destruct (unit_interval_le q H0 H1) as [Hq Hvq].
  pose proof (SFmul_le _ _ k Hk Hq (float64_of_int_le k Hk) Hvq (Prim2SF_valid _)) as Hm.
  destruct (SFtrunc_le _ k ltac:(lia) Hm) as (z & -> & Hz).
  assert (minInt <= z <= maxInt) as Hr.
  { unfold minInt, maxInt. assert (2 ^ 53 < 2 ^ 63) by (apply Z.pow_lt_mono_r; lia). lia. }
  destruct (Z.leb_spec minInt z), (Z.leb_spec z maxInt); simpl; lia.
Qed.

Lemma digits2_pos_unique (p : positive) (d : Z) :
  2 ^ (d - 1) <= Zpos p < 2 ^ d -> Zpos (digits2_pos p) = d.
Proof.
  intros [Hl Hu]. pose proof (digits2_pos_bounds p) as [Hl' Hu'].
  destruct (Z.lt_ge_cases d 1) as [Hd|Hd].
  { destruct (Z.lt_ge_cases d 0).
    - rewrite Z.pow_neg_r in Hu by done. lia.
    - assert (d = 0) by lia. subst d. simpl in Hu. lia. }
  assert (2 ^ (Zpos (digits2_pos p) - 1) < 2 ^ d) as H1 by lia.
  assert (2 ^ (d - 1) < 2 ^ Zpos (digits2_pos p)) as H2 by lia.
  apply Z.pow_lt_mono_r_iff in H1; [|lia..].
  apply Z.pow_lt_mono_r_iff in H2; lia.
Qed.

Lemma digits2_pos_shift (M m : positive) (n : Z) :
  0 <= n -> Zpos M = Zpos m * 2 ^ n ->
  Zpos (digits2_pos M) = Zpos (digits2_pos m) + n.
Proof.
  intros Hn HM. apply digits2_pos_unique. rewrite HM.
  pose proof (digits2_pos_bounds m) as [Hl Hu].
  pose proof (pow2_pos n Hn) as Hp.
  replace (Zpos (digits2_pos m) + n - 1) with (Zpos (digits2_pos m) - 1 + n) by lia.
  rewrite !Z.pow_add_r by lia. nia.
Qed.

(** Rounding [m * 2^n] at exponent [e - n], where [m] at exponent [e] is a
    binary64 number in canonical form, gives that number. *)
Lemma binary_round_aux_exact (s : bool) (M m : positive) (E e : Z) :
  E <= e -> Zpos M = Zpos m * 2 ^ (e - E) ->
  canonical_mantissa prec emax m e = true -> e <= emax - prec ->
  binary_round_aux prec emax s (Zpos M) E loc_Exact = S754_finite s m e.
Proof.
  intros HEe HM Hcan He.
  unfold canonical_mantissa in Hcan. apply Z.eqb_eq in Hcan.
  assert (Hstage2 : shr_fexp prec emax (Zpos m) e loc_Exact
                    = ({| shr_m := Zpos m; shr_r := false; shr_s := false |}, e)).
  { unfold shr_fexp, shr. cbn [Zdigits2 shr_record_of_loc]. by rewrite Hcan, Z.sub_diag. }
  assert (Hstage1 : shr_fexp prec emax (Zpos M) E loc_Exact
                    = ({| shr_m := Zpos m; shr_r := false; shr_s := false |}, e)).
  { pose proof (shr_fexp_Exact (Zpos M) E ltac:(lia)) as Hs.
    destruct (shr_fexp prec emax (Zpos M) E loc_Exact) as [mrs e1].
    destruct Hs as (_ & [Hm Hex] & He1). cbn [Zdigits2] in He1.
    rewrite (digits2_pos_shift M m (e - E) ltac:(lia) HM) in He1.
    replace (Zpos (digits2_pos m) + (e - E) + E) with (Zpos (digits2_pos m) + e) in He1 by lia.
    rewrite Hcan in He1. rewrite Z.max_r in He1 by lia. subst e1.
    pose proof (pow2_pos (e - E) ltac:(lia)) as Hp.
    rewrite HM, Z.div_mul in Hm by lia. rewrite HM, Z.mod_mul in Hex by lia.
    destruct (Hex eq_refl) as [Hr Hs].
    destruct mrs as [m1 r1 s1]. cbn in Hm, Hr, Hs. by subst. }
  unfold binary_round_aux. rewrite Hstage1. cbn [shr_m loc_of_shr_record round_nearest_even].
  rewrite Hstage2. cbn [shr_m].
  by destruct (Z.leb_spec e (emax - prec)); [|lia].
Qed.

Lemma float64_of_int_exact (k : Z) :
  0 < k < 2 ^ 53 ->
  exists m e, Prim2SF (float64_of_int k) = S754_finite false m e
    /\ e <= 0 /\ Zpos m = k * 2 ^ (- e).
Proof.
  intros Hk. unfold float64_of_int.
  destruct (Z.leb_spec 0 k) as [_|]; [|lia].
  rewrite of_uint63_spec, Uint63.of_Z_spec.
  rewrite Z.mod_small by (change wB with (2 ^ 63); lia).
  destruct k as [|p|p]; [lia| |lia]. cbn [binary_normalize]. unfold binary_round.
  pose proof (shl_align_val p 0 (fexp prec emax (Zpos (digits2_pos p) + 0))) as Hs.
  destruct (shl_align _ _ _) as [mz ez]. destruct Hs as (Hez & Hmz).
  pose proof (digits2_pos_bounds p) as [Hd _].
  assert (Zpos (digits2_pos p) <= 53) as Hd53.
  { assert (2 ^ (Zpos (digits2_pos p) - 1) < 2 ^ 53) as Hlt by lia.
    apply Z.pow_lt_mono_r_iff in Hlt; lia. }
  assert (ez = fexp prec emax (Zpos (digits2_pos p))) as Hfexp.
  { rewrite Hez, Z.add_0_r. unfold fexp, SpecFloat.emin, prec, emax. lia. }
  assert (- 1074 <= ez <= 0) as Hlow.
  { rewrite Hfexp. unfold fexp, SpecFloat.emin, prec, emax. lia. }
  exists mz, ez. split; [|split; [lia|by rewrite Hmz]].
  apply binary_round_aux_exact; [lia|by rewrite Z.sub_diag, Z.pow_0_r, Z.mul_1_r| |].
  - unfold canonical_mantissa. apply Z.eqb_eq.
    rewrite (digits2_pos_shift mz p (0 - ez) ltac:(lia) Hmz).
    replace (Zpos (digits2_pos p) + (0 - ez) + ez) with (Zpos (digits2_pos p)) by lia.
    done.
  - unfold emax, prec. lia.
Qed.

(** Multiplying a positive finite binary64 number by 1 gives it back. *)
Lemma mul_one_exact (f : float64) (m : positive) (e : Z) :
  Prim2SF f = S754_finite false m e -> (1 * f)%float = f.
Proof.
  intros Hf. apply Prim2SF_inj. rewrite FloatAxioms.mul_spec, Hf.
  change (Prim2SF 1) with (S754_finite false 4503599627370496 (-52)).
  pose proof (Prim2SF_valid f) as Hv. rewrite Hf in Hv.
  cbn [SpecFloat.valid_binary] in Hv. unfold bounded in Hv.
  apply andb_true_iff in Hv as [Hcan He]. apply Z.leb_le in He.
  unfold SF64mul, SFmul. cbn [xorb].
  apply binary_round_aux_exact; [lia| |done|done].
  rewrite Pos2Z.inj_mul. replace (e - (-52 + e)) with 52 by lia.
  change (2 ^ 52) with (Zpos 4503599627370496). lia.
Qed.

(** Converting an integer below [2^53] to float64 and back gives it back. *)
Lemma int_of_float64_of_int `{Platform} (k : Z) :
  0 <= k < 2 ^ 53 -> int_of_float64 (float64_of_int k) = k.
Proof.
  intros Hk. unfold int_of_float64.
  assert (SFtrunc (Prim2SF (float64_of_int k)) = Some k) as ->.
  { destruct (Z.eq_dec k 0) as [->|Hne]; [done|].
    destruct (float64_of_int_exact k ltac:(lia)) as (m & e & -> & He & Hm).
    cbn [SFtrunc]. f_equal. destruct e as [|q|q]; [|lia|].
    - rewrite Hm. simpl. lia.
    - rewrite Hm. change (- Zneg q) with (Zpos q). apply Z.div_mul.
      pose proof (pow2_pos (Zpos q) ltac:(lia)). lia. }
  assert (minInt <= k <= maxInt) as Hr.
  { unfold minInt, maxInt. assert (2 ^ 53 < 2 ^ 63) by (apply Z.pow_lt_mono_r; lia). lia. }
  destruct (Z.leb_spec minInt k), (Z.leb_spec k maxInt); simpl; lia.
Qed.

End Index.

(** * Exact products in the index of [quantile] *)

Section Scale.
Local Open Scope Z_scope.

(** A positive integer below [2^53] converts to a normal number: its
    mantissa has 53 digits. *)
Lemma float64_of_int_normal (k : Z) :
  0 < k < 2 ^ 53 ->
  exists m e, Prim2SF (float64_of_int k) = S754_finite false m e
    /\ - 1074 <= e <= 0 /\ Zpos m = k * 2 ^ (- e) /\ Zpos (digits2_pos m) = 53.
Proof.
  intros Hk. destruct (float64_of_int_exact k Hk) as (m & e & Hf & He & Hm).
  exists m, e. split; [done|].
  pose proof (Prim2SF_valid (float64_of_int k)) as Hv. rewrite Hf in Hv.
  cbn [SpecFloat.valid_binary] in Hv. unfold bounded in Hv.
  apply andb_true_iff in Hv as [Hcan _].
  unfold canonical_mantissa in Hcan. apply Z.eqb_eq in Hcan.
  unfold fexp, SpecFloat.emin, prec, emax in Hcan.
  pose proof (digits2_pos_bounds m) as [Hl Hu].
  assert (Zpos (digits2_pos m) = 53) as Hd.
  { destruct (Z.eq_dec (Zpos (digits2_pos m)) 53) as [|Hne]; [done|exfalso].
    assert (e = - 1074 /\ Zpos (digits2_pos m) < 53) as [-> Hlt] by lia.
    change (- - 1074) with 1074 in Hm.
    assert (2 ^ Zpos (digits2_pos m) < 2 ^ 53) as Hp by (apply Z.pow_lt_mono_r; lia).
    assert (2 ^ 53 <= 2 ^ 1074) as Hq by (apply Z.pow_le_mono_r; lia).
    assert (1 * 2 ^ 1074 <= k * 2 ^ 1074) as Hr
      by (apply Z.mul_le_mono_nonneg_r; lia).
    lia. }
  split; [lia|]. split; done.
Qed.

(** Doubling a normal binary64 number below the largest exponent adds one
    to its exponent. *)
Lemma mul_two_exact (f : float64) (m : positive) (e : Z) :
  Prim2SF f = S754_finite false m e -> Zpos (digits2_pos m) = 53 ->
  - 1074 <= e -> e + 1 <= emax - prec ->
  Prim2SF (2 * f)%float = S754_finite false m (e + 1).
Proof.
  intros Hf Hd Hlo Hhi. rewrite FloatAxioms.mul_spec, Hf.
  change (Prim2SF 2) with (S754_finite false 4503599627370496 (-51)).
  unfold SF64mul, SFmul. cbn [xorb].
  apply binary_round_aux_exact; [lia| | |done].
  - rewrite Pos2Z.inj_mul. replace (e + 1 - (-51 + e)) with 52 by lia.
    change (2 ^ 52) with (Zpos 4503599627370496). lia.
  - unfold canonical_mantissa. apply Z.eqb_eq.
    unfold fexp, SpecFloat.emin, prec, emax. lia.
Qed.

(** Multiplying a positive finite binary64 number by -1 changes its sign. *)
Lemma mul_minus_one_exact (f : float64) (m : positive) (e : Z) :
  Prim2SF f = S754_finite false m e ->
  Prim2SF (-1 * f)%float = S754_finite true m e.
Proof.
  intros Hf. rewrite FloatAxioms.mul_spec, Hf.
  change (Prim2SF (-1)) with (S754_finite true 4503599627370496 (-52)).
  pose proof (Prim2SF_valid f) as Hv. rewrite Hf in Hv.
  cbn [SpecFloat.valid_binary] in Hv. unfold bounded in Hv.
  apply andb_true_iff in Hv as [Hcan He]. apply Z.leb_le in He.
  unfold SF64mul, SFmul. cbn [xorb].
  apply binary_round_aux_exact; [lia| |done|done].
  rewrite Pos2Z.inj_mul. replace (e - (-52 + e)) with 52 by lia.
  change (2 ^ 52) with (Zpos 4503599627370496). lia.
Qed.

Lemma int_in_range `{Platform} (f : float64) (z : Z) :
  SFtrunc (Prim2SF f) = Some z -> - 2 ^ 53 <= z <= 2 ^ 53 -> int_of_float64 f = z.
Proof.
  intros Ht Hz. unfold int_of_float64. rewrite Ht.
  assert (minInt <= z <= maxInt) as Hr.
  { unfold minInt, maxInt. assert (2 ^ 53 < 2 ^ 63) by (apply Z.pow_lt_mono_r; lia). lia. }
  destruct (Z.leb_spec minInt z), (Z.leb_spec z maxInt); simpl; lia.
Qed.

(** [int(2 * float64(k))] is [2 * k] for a positive [k] below [2^52]. *)
Lemma int_of_float64_double `{Platform} (k : Z) :
  0 < k < 2 ^ 52 -> int_of_float64 (2 * float64_of_int k)%float = 2 * k.
Proof.
  intros Hk.
  assert (2 ^ 52 < 2 ^ 53) as H52 by (apply Z.pow_lt_mono_r; lia).
  destruct (float64_of_int_normal k ltac:(lia)) as (m & e & Hf & He & Hm & Hd).
  pose proof (digits2_pos_bounds m) as [Hl _]. rewrite Hd in Hl.
  change (2 ^ (53 - 1)) with (2 ^ 52) in Hl.
  assert (e <> 0) as Hne.
  { intros ->. change (2 ^ (- 0)) with 1 in Hm. lia. }
  apply int_in_range; [|lia].
  rewrite (mul_two_exact _ m e Hf Hd) by (unfold emax, prec; lia).
  cbn [SFtrunc]. f_equal.
  assert (Zpos m = 2 * k * 2 ^ (- (e + 1))) as Hm2.
  { rewrite Hm. replace (- e) with (1 + - (e + 1)) by lia.
    rewrite Z.pow_add_r by lia. change (2 ^ 1) with 2. ring. }
  destruct (e + 1) as [|q|q] eqn:Ee; [|lia|].
  - rewrite Hm2. simpl. lia.
  - rewrite Hm2. change (- Zneg q) with (Zpos q). apply Z.div_mul.
    pose proof (pow2_pos (Zpos q) ltac:(lia)). lia.
Qed.

(** [int(-1 * float64(k))] is [-k] for a positive [k] below [2^53]. *)
Lemma int_of_float64_negate `{Platform} (k : Z) :
  0 < k < 2 ^ 53 -> int_of_float64 (-1 * float64_of_int k)%float = - k.
Proof.
  intros Hk.
  destruct (float64_of_int_exact k Hk) as (m & e & Hf & He & Hm).
  apply int_in_range; [|lia].
  rewrite (mul_minus_one_exact _ m e Hf). cbn [SFtrunc]. f_equal. f_equal.
  destruct e as [|q|q]; [|lia|].
  - rewrite Hm. simpl. lia.
  - rewrite Hm. change (- Zneg q) with (Zpos q). apply Z.div_mul.
    pose proof (pow2_pos (Zpos q) ltac:(lia)). lia.
Qed.

(** A number that is neither a NaN nor an infinity is a zero or has a
    mantissa and an exponent. *)
Lemma is_finite_SF (q : float64) :
  PrimFloat.is_finite q = true ->
  match Prim2SF q with
  | S754_zero _ | S754_finite _ _ _ => True
  | _ => False
  end.
Proof.
  unfold PrimFloat.is_finite, PrimFloat.is_nan, PrimFloat.is_infinity.
  rewrite !FloatAxioms.eqb_spec, FloatAxioms.abs_spec.
  destruct (Prim2SF q) as [s|s| |s m e]; try done.
  - by destruct s.
Qed.

(** [int(q * float64(0))] is 0 for every finite [q]. *)
Lemma int_of_float64_mul_zero `{Platform} (q : float64) :
  PrimFloat.is_finite q = true -> int_of_float64 (q * float64_of_int 0)%float = 0.
Proof.
  intros Hq. apply is_finite_SF in Hq.
  apply int_in_range; [|lia].
  rewrite FloatAxioms.mul_spec.
  change (Prim2SF (float64_of_int 0)) with (S754_zero false).
  by destruct (Prim2SF q) as [s|s| |s m e].
Qed.

End Scale.

(** * Further properties of the package *)

(** The element [quantile] returns for a [q] between 0 and 1. *)
Lemma quantile_elem `{P : Platform} (vals : list float64) (q : float64) :
  vals <> [] -> (Z.of_nat (length vals) <= 2 ^ 53)%Z ->
  (0 <=? q)%float = true -> (q <=? 1)%float = true ->
  exists v, quantile vals q = Ok v /\ v ∈ vals.
Proof.
  intros Hne Hlen H0 H1. unfold quantile.
  destruct (Z.eqb_spec (Z.of_nat (length vals)) 0) as [Hz|_].
  { destruct vals; [done|simpl in Hz; lia]. }
  assert (length vals <> 0%nat) by (destruct vals; simpl; [done|lia]).
  assert (0 <= Z.of_nat (length vals) - 1 < 2 ^ 53)%Z as Hk by (clear -Hlen H; lia).
  pose proof (int_of_float64_mul_range q (Z.of_nat (length vals) - 1) H0 H1 Hk) as Hr.
  destruct (index_lt vals
              (int_of_float64 (q * float64_of_int (Z.of_nat (length vals) - 1))%float))
    as (v & Hv & Hl); [lia|].
  exists v. split; [done|]. by eapply list_elem_of_lookup_2.
Qed.

(** X1.  For a non-empty collection of at most 2^53 elements and a [q]
    between 0 and 1, [quantile] does not panic: the index
    [int(q * float64(n - 1))] lies in the collection, and the element there
    is returned. *)
Theorem quantile_unit_interval `{P : Platform} (vals : list float64) (q : float64) :
  vals <> [] -> (Z.of_nat (length vals) <= 2 ^ 53)%Z ->
  (0 <=? q)%float = true -> (q <=? 1)%float = true ->
  exists (i : nat) (v : float64),
    quantile vals q = Ok v /\ vals !! i = Some v
    /\ Z.of_nat i = int_of_float64 (q * float64_of_int (Z.of_nat (length vals) - 1))%float.
Proof.
  intros Hne Hlen H0 H1. unfold quantile.
  destruct (Z.eqb_spec (Z.of_nat (length vals)) 0) as [Hz|_].
  { destruct vals; [done|simpl in Hz; lia]. }
  assert (length vals <> 0%nat) by (destruct vals; simpl; [done|lia]).
  assert (0 <= Z.of_nat (length vals) - 1 < 2 ^ 53)%Z as Hk by (clear -Hlen H; lia).
  pose proof (int_of_float64_mul_range q (Z.of_nat (length vals) - 1) H0 H1 Hk) as Hr.
  destruct (index_lt vals
              (int_of_float64 (q * float64_of_int (Z.of_nat (length vals) - 1))%float))
    as (v & Hv & Hl); [lia|].
  exists (Z.to_nat (int_of_float64 (q * float64_of_int (Z.of_nat (length vals) - 1))%float)), v.
  split; [done|]. split; [done|]. lia.
Qed.

Lemma quantile_unit_interval_witness :
  exists (i : nat) (v : float64),
    quantile (H := sample_platform) [10; 20; 30]%float 0.5 = Ok v
    /\ [10; 20; 30]%float !! i = Some v
    /\ Z.of_nat i = int_of_float64 (H := sample_platform) (0.5 * float64_of_int (3 - 1))%float.
Proof.
  apply (@quantile_unit_interval sample_platform [10; 20; 30]%float 0.5%float).
  - discriminate.
  - vm_compute. discriminate.
  - vm_compute. reflexivity.
  - vm_compute. reflexivity.
Defined.

(** X2.  [quantile] at 0 returns the first element and at 1 the last one
    (the smallest and the largest of a sorted collection), for at most 2^53
    elements: [0 * float64(n - 1)] is a zero and [1 * float64(n - 1)] is
    [n - 1] exactly. *)
Theorem quantile_first_and_last `{P : Platform} (vals : list float64) (v : float64) :
  (Z.of_nat (length vals) <= 2 ^ 53)%Z ->
  (vals !! 0%nat = Some v -> quantile vals 0 = Ok v)
  /\ (vals !! (length vals - 1)%nat = Some v -> quantile vals 1 = Ok v).
Proof.
  intros Hlen.
  assert (Hne : forall i, vals !! i = Some v ->
                  (Z.of_nat (length vals) =? 0)%Z = false /\ length vals <> 0%nat).
  { intros i Hi. apply lookup_lt_Some in Hi. split; [apply Z.eqb_neq|]; lia. }
  split; intros Hv; unfold quantile; destruct (Hne _ Hv) as [-> Hn].
  - assert (int_of_float64 (0 * float64_of_int (Z.of_nat (length vals) - 1))%float = 0%Z) as ->.
    { pose proof (float64_of_int_le (Z.of_nat (length vals) - 1)%Z ltac:(lia)) as Hf.
      unfold int_of_float64. rewrite FloatAxioms.mul_spec.
      change (Prim2SF 0) with (S754_zero false).
      by destruct (Prim2SF (float64_of_int _)) as [s| | |[] m e]. }
    by apply (index_Some vals 0).
  - assert ((1 * float64_of_int (Z.of_nat (length vals) - 1))%float
            = float64_of_int (Z.of_nat (length vals) - 1)) as ->.
    { destruct (Z.eq_dec (Z.of_nat (length vals) - 1) 0)%Z as [->|Hk]; [done|].
      destruct (float64_of_int_exact (Z.of_nat (length vals) - 1)%Z ltac:(lia))
        as (m & e & Hf & _).
      by apply (mul_one_exact _ m e). }
    rewrite int_of_float64_of_int by lia.
    replace (Z.of_nat (length vals) - 1)%Z with (Z.of_nat (length vals - 1)) by lia.
    by apply index_Some.
Qed.

Lemma quantile_first_and_last_witness :
  quantile (H := sample_platform) [10; 20; 10]%float 0 = Ok 10%float
  /\ quantile (H := sample_platform) [10; 20; 10]%float 1 = Ok 10%float.
Proof.
  destruct (@quantile_first_and_last sample_platform [10; 20; 10]%float 10%float)
    as [Hfirst Hlast].
  - vm_compute. discriminate.
  - split; [apply Hfirst|apply Hlast]; reflexivity.
Defined.

(** X3.  [QuantileAggregator.Aggregate] leaves the slice it is handed sorted
    and holding the same elements; for a non-empty slice of at most 2^53
    elements and a quantile between 0 and 1 it does not panic and returns one
    of the elements. *)
Theorem QuantileAggregator_Aggregate_sorts `{P : Platform} `{!PlatformSpec P}
    (a_quantile : float64) (values : list float64) :
  let o := QuantileAggregator.Aggregate a_quantile values in
  o.2 ≡ₚ values
  /\ Float64sAreSorted o.2 = true
  /\ o.1 = quantile o.2 a_quantile
  /\ (values <> [] -> (Z.of_nat (length values) <= 2 ^ 53)%Z ->
      (0 <=? a_quantile)%float = true -> (a_quantile <=? 1)%float = true ->
      exists v, o.1 = Ok v /\ v ∈ values).
Proof.
  intros o. subst o. unfold QuantileAggregator.Aggregate, bind, modify. simpl.
  split; [apply Float64s_Permutation|]. split; [apply Float64s_sorted|]. split; [done|].
  intros Hne Hlen H0 H1.
  pose proof (Float64s_Permutation values) as Hp.
  destruct (quantile_elem (Float64s values) a_quantile) as (v & Hq & Hi);
    try done.
  - intros Hnil. rewrite Hnil in Hp. by apply Permutation_nil_l in Hp.
  - by rewrite Hp.
  - exists v. split; [done|]. by rewrite <- Hp.
Qed.

Lemma QuantileAggregator_Aggregate_sorts_witness :
  exists v,
    (QuantileAggregator.Aggregate (H := sample_platform) 0.5 [30; 10; 20]%float).1 = Ok v
    /\ v ∈ [30; 10; 20]%float.
Proof.
  destruct (@QuantileAggregator_Aggregate_sorts sample_platform sample_platform_spec
              0.5%float [30; 10; 20]%float) as (_ & _ & _ & H).
  apply H.
  - discriminate.
  - vm_compute. discriminate.
  - vm_compute. reflexivity.
  - vm_compute. reflexivity.
Defined.

(** X4.  With a [q] between 0 and 1 and at most 2^53 collected statistics, the
    [Quantile] method of either resampler does not panic: it returns NaN when
    nothing has been collected and one of the collected statistics
    otherwise. *)
Theorem Quantile_unit_interval `{P : Platform} (q : float64) :
  (0 <=? q)%float = true -> (q <=? 1)%float = true ->
  (forall x : BasicResampler.t,
     (Z.of_nat (length (BasicResampler.sampleAggregates x)) <= 2 ^ 53)%Z ->
     (BasicResampler.sampleAggregates x = [] /\ BasicResampler.Quantile x q = Ok NaN)
     \/ exists v, BasicResampler.Quantile x q = Ok v /\ v ∈ BasicResampler.sampleAggregates x)
  /\ (forall x : PresampledResampler.t,
        (Z.of_nat (length (PresampledResampler.sampleAggregates x)) <= 2 ^ 53)%Z ->
        (PresampledResampler.sampleAggregates x = []
         /\ PresampledResampler.Quantile x q = Ok NaN)
        \/ exists v, PresampledResampler.Quantile x q = Ok v
                     /\ v ∈ PresampledResampler.sampleAggregates x).
Proof.
  intros H0 H1.
  assert (Hq : forall vals : list float64,
            (Z.of_nat (length vals) <= 2 ^ 53)%Z ->
            (vals = [] /\ quantile vals q = Ok NaN)
            \/ exists v, quantile vals q = Ok v /\ v ∈ vals).
  { intros vals Hlen. destruct (decide (vals = [])) as [->|Hne]; [by left|right].
    by apply quantile_elem. }
  split; intros x Hlen; by apply Hq.
Qed.

Lemma Quantile_unit_interval_witness :
  let o := BasicResampler.Resample 0%nat (sample_basic NewSumAggregator 3, sample_heap) in
  exists v, BasicResampler.Quantile o.2.1 0.5 = Ok v
            /\ v ∈ BasicResampler.sampleAggregates o.2.1.
Proof.
  intros o.
  assert (H0 : (0 <=? 0.5)%float = true) by (vm_compute; reflexivity).
  assert (H1 : (0.5 <=? 1)%float = true) by (vm_compute; reflexivity).
  assert (Hlen : (Z.of_nat (length (BasicResampler.sampleAggregates o.2.1)) <= 2 ^ 53)%Z)
    by (vm_compute; discriminate).
  destruct (@Quantile_unit_interval sample_platform 0.5%float H0 H1) as [HB _].
  destruct (HB o.2.1 Hlen) as [[Hnil _]|Hv]; [|exact Hv].
  vm_compute in Hnil. discriminate.
Defined.

Lemma total_on_Sum n : total_on NewSumAggregator n.
Proof. intros values _. by eexists. Qed.

Lemma total_on_Average n : total_on NewAverageAggregator n.
Proof. intros values _. by eexists. Qed.

Lemma total_on_Quantile `{P : Platform} `{!PlatformSpec P} (q : float64) (n : nat) :
  (Z.of_nat n <= 2 ^ 53)%Z -> (0 <=? q)%float = true -> (q <=? 1)%float = true ->
  total_on (NewQuantileAggregator q) n.
Proof.
  intros Hn H0 H1 values Hlen.
  pose proof (Float64s_Permutation values) as Hp.
  simpl. unfold QuantileAggregator.Aggregate, bind, modify. simpl.
  destruct (decide (values = [])) as [->|Hne].
  - exists NaN. apply Permutation_nil_r in Hp. by rewrite Hp.
  - destruct (quantile_elem (Float64s values) q) as (v & Hv & _); try done.
    + intros Hnil. rewrite Hnil in Hp. by apply Permutation_nil_l in Hp.
    + rewrite Hp. lia.
    + by exists v.
Qed.

Lemma aggregate_each_total (a : Aggregator) (n : nat) (scratches : list (list float64)) :
  total_on a n -> Forall (fun s => length s = n) scratches ->
  exists stats, aggregate_each a scratches = Ok stats.
Proof.
  intros Ht. induction 1 as [|s scratches Hs _ [stats IH]]; simpl; [by eexists|].
  destruct (Ht s Hs) as [x ->]. rewrite IH. by eexists.
Qed.

(** [PresampledResampler.Resample] returns when the table covers the values
    and the aggregator returns. *)
Lemma PresampledResampler_Resample_total `{P : Platform} `{!PlatformSpec P}
    (x : PresampledResampler.t) (h : heap) (values : slice) :
  values < length h ->
  Z.of_nat (length (PresampledResampler.samples x)) = PresampledResampler.iterations x ->
  Forall (fun row => length (deref h values) <= length row) (PresampledResampler.samples x) ->
  keeps_length (PresampledResampler.aggregator x) ->
  total_on (PresampledResampler.aggregator x) (length (deref h values)) ->
  (PresampledResampler.Resample values (x, h)).1 = Ok tt.
Proof.
  intros Hv Hit Hrows Hkeep Htot.
  pose proof (PresampledResampler_Resample_exact values x h Hv Hit Hrows Hkeep) as Hex.
  cbv zeta in Hex. unfold PresampledResampler_Resample_spec in Hex.
  destruct (aggregate_each_total (PresampledResampler.aggregator x) (length (deref h values))
              (map (scaled (deref h values)) (PresampledResampler.samples x)) Htot)
    as [stats Hstats].
  { apply Forall_map. clear -Hrows. induction Hrows; constructor; [|done].
    simpl. unfold scaled. rewrite length_zip_with. lia. }
  rewrite Hstats in Hex. by destruct Hex as (l' & ->).
Qed.

(** X5.  [PresampledResampler.Resample] returns (it does not panic) when the
    table has a row per iteration, every row covers the values, and the
    aggregator returns on slices of that length and keeps their length, as
    the sum and average aggregators always do. *)
Theorem PresampledResampler_Resample_returns `{P : Platform} `{!PlatformSpec P}
    (x : PresampledResampler.t) (h : heap) (values : slice) :
  values < length h ->
  Z.of_nat (length (PresampledResampler.samples x)) = PresampledResampler.iterations x ->
  Forall (fun row => length (deref h values) <= length row) (PresampledResampler.samples x) ->
  keeps_length (PresampledResampler.aggregator x) ->
  total_on (PresampledResampler.aggregator x) (length (deref h values)) ->
  (PresampledResampler.Resample values (x, h)).1 = Ok tt.
Proof. apply PresampledResampler_Resample_total. Qed.

Lemma deref_insert_eq (h : heap) (s : slice) l : s < length h -> deref (<[s := l]> h) s = l.
Proof. intros Hs. unfold deref. by rewrite list_lookup_insert_eq. Qed.

Lemma deref_insert_ne (h : heap) (s s' : slice) l : s <> s' -> deref (<[s := l]> h) s' = deref h s'.
Proof. intros Hs. unfold deref. by rewrite list_lookup_insert_ne. Qed.

Lemma Int63_iter_S `{Platform} (k : nat) (s : Source) :
  Int63_iter (S k) s = (Int63 (Int63_iter k s)).2.
Proof. done. Qed.

Section BasicTotal.
Context `{P : Platform} `{!PlatformSpec P}.

Lemma BasicResampler_draw_total (values sc : slice) (vals : list float64) c w :
  vals <> [] -> values <> sc ->
  BasicResampler_fixed w.1 = c -> deref w.2 values = vals ->
  length (deref w.2 sc) = length vals -> sc < length w.2 ->
  wp (for_range 0 (length vals) (fun i (_ : unit) =>
        let! n := on_self BasicResampler.r_Int63 in
        let! k := of_result (int_rem n (Z.of_nat (length vals))) in
        let! v := load values k in
        store sc i v) tt)
     (post (fun _ w' =>
              BasicResampler_fixed w'.1 = c
              /\ BasicResampler.r w'.1 = Int63_iter (length vals) (BasicResampler.r w.1)
              /\ deref w'.2 values = vals
              /\ length (deref w'.2 sc) = length vals /\ sc < length w'.2
              /\ Forall (fun v => v ∈ vals) (deref w'.2 sc))
           (fun _ _ => False)) w.
Proof.
  intros Hne Hvs Hc Hvals Hlen Hsc.
  assert (length vals <> 0) as Hn by (by destruct vals).
  eapply wp_mono; [|apply (wp_for_range
    (fun k (_ : unit) w' =>
       BasicResampler_fixed w'.1 = c
       /\ BasicResampler.r w'.1 = Int63_iter k (BasicResampler.r w.1)
       /\ deref w'.2 values = vals
       /\ length (deref w'.2 sc) = length vals /\ sc < length w'.2
       /\ Forall (fun v => v ∈ vals) (take k (deref w'.2 sc)))
    (fun _ _ => False))].
  - intros [[]|p] w'; simpl; [|done]. intros (H1 & H2 & H3 & H4 & H5 & H6).
    rewrite take_ge in H6 by lia. done.
  - rewrite take_0. repeat split; try done.
  - intros k [] [x1 h1] Hk (H1 & H2 & H3 & H4 & H5 & H6). simpl in *.
    rewrite Z.add_0_l.
    unfold wp, bind, on_self, BasicResampler.r_Int63, of_result, load, store. simpl.
    pose proof (Int63_range (BasicResampler.r x1)) as Hr.
    destruct (Int63 (BasicResampler.r x1)) as [d s'] eqn:Ed. simpl in *.
    unfold int_rem. destruct (Z.eqb_spec (Z.of_nat (length vals)) 0) as [|_]; [lia|]. simpl.
    assert (0 <= Z.rem d (Z.of_nat (length vals)) < Z.of_nat (length vals))%Z as Hrem
      by (apply Z.rem_bound_pos; lia).
    rewrite H3.
    destruct (index_lt vals (Z.rem d (Z.of_nat (length vals))) Hrem) as (v & -> & Hv).
    simpl. rewrite assign_lt by lia. simpl.
    rewrite deref_insert_ne, deref_insert_eq, !length_insert by done.
    split; [done|].
    split; [unfold Int63_iter in *; simpl; by rewrite <- H2, Ed|].
    split; [done|]. split; [done|].
    split; [done|].
    rewrite (take_S_r _ _ v) by (apply list_lookup_insert_eq; lia).
    rewrite take_insert_ge by lia. apply Forall_app. split; [done|].
    constructor; [|done]. by eapply list_elem_of_lookup_2.
Qed.

Lemma BasicResampler_round_total (values sc : slice) (vals : list float64) a it sa w :
  vals <> [] -> values <> sc ->
  keeps_length a -> total_on a (length vals) ->
  BasicResampler_fixed w.1 = (a, it, sa) -> deref w.2 values = vals ->
  length (deref w.2 sc) = length vals -> sc < length w.2 ->
  wp (BasicResampler_round values sc (length vals))
     (post (fun _ w' =>
              (exists x0, resample_of a vals x0
                          /\ BasicResampler_fixed w'.1 = (a, it, sa ++ [x0]))
              /\ BasicResampler.r w'.1 = Int63_iter (length vals) (BasicResampler.r w.1)
              /\ deref w'.2 values = vals
              /\ length (deref w'.2 sc) = length vals /\ sc < length w'.2)
           (fun _ _ => False)) w.
Proof.
  intros Hne Hvs Hkeep Htot Hc Hvals Hlen Hsc. unfold BasicResampler_round.
  apply wp_bind.
  eapply wp_mono; [|by apply (BasicResampler_draw_total values sc vals (a, it, sa))].
  intros [[]|p] [x1 h1]; simpl; [|done]. intros (H1 & H2 & H3 & H4 & H5 & H6).
  unfold wp, bind, on_self, gets, on_slice, modify. simpl.
  assert (BasicResampler.aggregator x1 = a) as -> by (by injection H1).
  destruct (Htot (deref h1 sc) H4) as [x0 Hx0].
  pose proof (Hkeep (deref h1 sc)) as Hk.
  destruct (Aggregate a (deref h1 sc)) as [res l] eqn:Ea. simpl in Hx0, Hk. subst res.
  simpl. rewrite deref_insert_ne, deref_insert_eq, length_insert by done.
  split; [|by rewrite Hk].
  exists x0. split.
  - exists (deref h1 sc). by rewrite Ea.
  - unfold BasicResampler_fixed in *. simpl. by injection H1 as -> -> ->.
Qed.

Lemma BasicResampler_rounds_total (values sc : slice) (vals : list float64) a it sa n w :
  vals <> [] -> values <> sc ->
  keeps_length a -> total_on a (length vals) ->
  BasicResampler_fixed w.1 = (a, it, sa) -> deref w.2 values = vals ->
  length (deref w.2 sc) = length vals -> sc < length w.2 ->
  wp (for_range 0 n (fun _ (_ : unit) => BasicResampler_round values sc (length vals)) tt)
     (post (fun _ w' =>
              (exists stats, length stats = n /\ Forall (resample_of a vals) stats
                             /\ BasicResampler_fixed w'.1 = (a, it, sa ++ stats))
              /\ BasicResampler.r w'.1
                 = Int63_iter (n * length vals) (BasicResampler.r w.1))
           (fun _ _ => False)) w.
Proof.
  intros Hne Hvs Hkeep Htot Hc Hvals Hlen Hsc.
  eapply wp_mono; [|apply (wp_for_range
    (fun k (_ : unit) w' =>
       (exists stats, length stats = k /\ Forall (resample_of a vals) stats
                      /\ BasicResampler_fixed w'.1 = (a, it, sa ++ stats))
       /\ BasicResampler.r w'.1 = Int63_iter (k * length vals) (BasicResampler.r w.1)
       /\ deref w'.2 values = vals
       /\ length (deref w'.2 sc) = length vals /\ sc < length w'.2)
    (fun _ _ => False))].
  - intros [[]|p] w'; simpl; [|done]. tauto.
  - split; [|done]. exists []. by rewrite app_nil_r.
  - intros k [] w1 Hk ((stats & Hl & Hst & Hfix) & Hr & H3 & H4 & H5).
    eapply wp_mono; [|by apply (BasicResampler_round_total values sc vals a it (sa ++ stats))].
    intros [[]|p] w2; simpl; [|done].
    intros ((x0 & Hx0 & Hfix2) & Hr2 & H32 & H42 & H52).
    split; [|split; [|done]].
    + exists (stats ++ [x0]). rewrite length_app. simpl. split; [lia|].
      split; [apply Forall_app; by split; [|constructor]|]. by rewrite (assoc_L (++)).
    + rewrite Hr2, Hr. unfold Int63_iter. by rewrite <- Nat.iter_add.
Qed.
End BasicTotal.

Lemma PresampledResampler_Resample_returns_witness :
  (PresampledResampler.Resample (H := sample_platform) 0%nat
     (sample_presampled NewSumAggregator 3 5, sample_heap)).1 = Ok tt.
Proof.
  assert (H1 : 0 < length sample_heap) by (vm_compute; lia).
  assert (H2 : Z.of_nat (length (PresampledResampler.samples
                                   (sample_presampled NewSumAggregator 3 5)))
               = PresampledResampler.iterations (sample_presampled NewSumAggregator 3 5))
    by (vm_compute; reflexivity).
  assert (H3 : Forall (fun row => length (deref sample_heap 0) <= length row)
                 (PresampledResampler.samples (sample_presampled NewSumAggregator 3 5)))
    by (vm_compute; repeat constructor).
  assert (H4 : keeps_length
                 (PresampledResampler.aggregator (sample_presampled NewSumAggregator 3 5)))
    by (intros l; vm_compute; reflexivity).
  assert (H5 : total_on
                 (PresampledResampler.aggregator (sample_presampled NewSumAggregator 3 5))
                 (length (deref sample_heap 0)))
    by (intros l _; eexists; vm_compute; reflexivity).
  exact (@PresampledResampler_Resample_returns sample_platform sample_platform_spec
           _ sample_heap 0%nat H1 H2 H3 H4 H5).
Defined.

(** [BasicResampler.Resample] returns on a non-empty slice when the aggregator
    returns; what it appends and how far it advances the source. *)
Lemma BasicResampler_Resample_total `{P : Platform} `{!PlatformSpec P}
    (x : BasicResampler.t) (h : heap) (values : slice) :
  values < length h -> deref h values <> [] ->
  keeps_length (BasicResampler.aggregator x) ->
  total_on (BasicResampler.aggregator x) (length (deref h values)) ->
  let o := BasicResampler.Resample values (x, h) in
  let n := Z.to_nat (BasicResampler.iterations x) in
  o.1 = Ok tt
  /\ (exists stats,
        length stats = n
        /\ Forall (resample_of (BasicResampler.aggregator x) (deref h values)) stats
        /\ BasicResampler.sampleAggregates o.2.1
           = Float64s (BasicResampler.sampleAggregates x ++ stats))
  /\ BasicResampler.r o.2.1 = Int63_iter (n * length (deref h values)) (BasicResampler.r x).
Proof.
  intros Hv Hne Hkeep Htot o n. subst o.
  rewrite BasicResampler_Resample_unfold.
  pose proof (BasicResampler_rounds_total values (length h) (deref h values)
                (BasicResampler.aggregator x) (BasicResampler.iterations x)
                (BasicResampler.sampleAggregates x) n
                (x, h ++ [replicate (length (deref h values)) 0%float])
                Hne ltac:(lia) Hkeep Htot eq_refl) as Hwp.
  simpl in Hwp. rewrite deref_app_l, deref_app_r, length_replicate, length_app in Hwp by done.
  specialize (Hwp eq_refl eq_refl ltac:(simpl; lia)).
  unfold wp in Hwp. fold n. unfold bind.
  destruct (for_range _ _ _ _ _) as [[[]|p] [x1 h1]]; simpl in Hwp; [|done].
  destruct Hwp as ((stats & Hl & Hst & Hfix) & Hr).
  unfold on_self, modify. simpl. split; [done|]. split; [|done].
  exists stats. split; [done|]. split; [done|]. by injection Hfix as _ _ ->.
Qed.

(** X6.  [BasicResampler.Resample] on a non-empty slice returns when the
    aggregator returns on slices of that length: the index
    [int(r.Int63()) % len(values)] is always within [values].  Every
    statistic it appends is the aggregate of [len(values)] elements taken from
    [values], and the source has been advanced by exactly
    [iterations * len(values)] draws. *)
Theorem BasicResampler_Resample_returns `{P : Platform} `{!PlatformSpec P}
    (x : BasicResampler.t) (h : heap) (values : slice) :
  values < length h -> deref h values <> [] ->
  keeps_length (BasicResampler.aggregator x) ->
  total_on (BasicResampler.aggregator x) (length (deref h values)) ->
  let o := BasicResampler.Resample values (x, h) in
  let n := Z.to_nat (BasicResampler.iterations x) in
  o.1 = Ok tt
  /\ (exists stats,
        length stats = n
        /\ Forall (resample_of (BasicResampler.aggregator x) (deref h values)) stats
        /\ BasicResampler.sampleAggregates o.2.1
           = Float64s (BasicResampler.sampleAggregates x ++ stats))
  /\ BasicResampler.r o.2.1 = Int63_iter (n * length (deref h values)) (BasicResampler.r x).
Proof. apply BasicResampler_Resample_total. Qed.

Lemma BasicResampler_Resample_returns_witness :
  let x := sample_basic NewSumAggregator 3 in
  let o := BasicResampler.Resample 0%nat (x, sample_heap) in
  o.1 = Ok tt
  /\ (exists stats,
        length stats = 3%nat
        /\ Forall (resample_of NewSumAggregator [0; 1; 2; 3; 4]%float) stats
        /\ BasicResampler.sampleAggregates o.2.1 = insertion_sort ([] ++ stats))
  /\ BasicResampler.r o.2.1
     = Int63_iter (H := sample_platform) (3 * 5) (BasicResampler.r x).
Proof.
  intros x o.
  assert (H1 : 0 < length sample_heap) by (vm_compute; lia).
  assert (H2 : deref sample_heap 0 <> []) by discriminate.
  assert (H3 : keeps_length (BasicResampler.aggregator x)) by (intros l; reflexivity).
  assert (H4 : total_on (BasicResampler.aggregator x) (length (deref sample_heap 0)))
    by apply total_on_Sum.
  pose proof (@BasicResampler_Resample_returns sample_platform sample_platform_spec
                x sample_heap 0%nat H1 H2 H3 H4) as H.
  exact H.
Defined.

(** X7.  [NewPresampledResampler] and the lengths it is given: a negative
    [iterations] panics in [make]; so does a negative [numValues] when there
    is at least one iteration; with no iteration the table is empty whatever
    [numValues] is; and with [numValues] zero every row is empty (the index
    expression, a remainder by [numValues], is never evaluated). *)
Theorem NewPresampledResampler_lengths `{P : Platform}
    (a : Aggregator) (iterations numValues : Z) :
  ((iterations < 0)%Z ->
   NewPresampledResampler a iterations numValues = Panic MakesliceLenOutOfRange)
  /\ ((0 < iterations)%Z -> (numValues < 0)%Z ->
      NewPresampledResampler a iterations numValues = Panic MakesliceLenOutOfRange)
  /\ (iterations = 0%Z ->
      exists x, NewPresampledResampler a iterations numValues = Ok x
                /\ PresampledResampler.samples x = [])
  /\ ((0 <= iterations)%Z -> numValues = 0%Z ->
      exists x, NewPresampledResampler a iterations numValues = Ok x
                /\ PresampledResampler.samples x = replicate (Z.to_nat iterations) []).
Proof.
  unfold NewPresampledResampler. repeat split.
  - intros Hit. by destruct (Z.ltb_spec iterations 0); [|lia].
  - intros Hit Hnv. destruct (Z.ltb_spec iterations 0); [lia|].
    rewrite length_replicate.
    destruct (Z.to_nat iterations) as [|n] eqn:En; [lia|].
    rewrite for_range_S. unfold bind, sampledInts_row.
    by destruct (Z.ltb_spec numValues 0); [|lia].
  - intros ->. simpl. by eexists.
  - intros Hit ->. destruct (Z.ltb_spec iterations 0); [lia|].
    rewrite length_replicate.
    assert (Hloop : forall n (done_ rest : list (list Z)) s,
              Forall (fun row => row = []) rest -> length rest = n ->
              for_range (Z.of_nat (length done_)) n (fun i samples =>
                let! sampledInts := sampledInts_row 0 in
                of_result (assign samples i sampledInts)) (done_ ++ rest) s
              = (Ok (done_ ++ rest), s)).
    { intros n. induction n as [|n IH]; intros done_ rest s Hrest Hlen; [done|].
      destruct rest as [|row rest]; [done|]. rewrite for_range_S.
      pose proof (Forall_inv Hrest) as Hrow. simpl in Hrow. subst row.
      apply Forall_inv_tail in Hrest.
      unfold bind at 1. unfold bind at 1. unfold sampledInts_row at 1. simpl.
      unfold of_result at 1.
      rewrite assign_lt by (rewrite length_app; simpl; lia). simpl.
      rewrite list_insert_id by (by rewrite list_lookup_middle).
      replace (Z.of_nat (length done_) + 1)%Z with (Z.of_nat (length (done_ ++ [[]])))
        by (rewrite length_app; simpl; lia).
      rewrite (cons_middle [] done_ rest), (assoc_L (++)).
      apply IH; [done|]. simpl in Hlen. lia. }
    specialize (Hloop (Z.to_nat iterations) [] (replicate (Z.to_nat iterations) [])
                  (NewSource 0)).
    cbn [length app] in Hloop. change (Z.of_nat 0) with 0%Z in Hloop.
    rewrite Hloop; [by eexists| |by rewrite length_replicate].
    by apply Forall_replicate.
Qed.

Lemma NewPresampledResampler_lengths_witness :
  NewPresampledResampler (H := sample_platform) NewSumAggregator (-1) 5
  = Panic MakesliceLenOutOfRange
  /\ NewPresampledResampler (H := sample_platform) NewSumAggregator 2 (-5)
     = Panic MakesliceLenOutOfRange
  /\ (exists x, NewPresampledResampler (H := sample_platform) NewSumAggregator 0 (-5) = Ok x
                /\ PresampledResampler.samples x = [])
  /\ (exists x, NewPresampledResampler (H := sample_platform) NewSumAggregator 2 0 = Ok x
                /\ PresampledResampler.samples x = replicate (Z.to_nat 2) []).
Proof.
  split; [|split; [|split]].
  - destruct (@NewPresampledResampler_lengths sample_platform NewSumAggregator (-1) 5)
      as (H & _). apply H. lia.
  - destruct (@NewPresampledResampler_lengths sample_platform NewSumAggregator 2 (-5))
      as (_ & H & _). apply H; lia.
  - destruct (@NewPresampledResampler_lengths sample_platform NewSumAggregator 0 (-5))
      as (_ & _ & H & _). apply H. lia.
  - destruct (@NewPresampledResampler_lengths sample_platform NewSumAggregator 2 0)
      as (_ & _ & _ & H). apply H; lia.
Defined.

Lemma row_sum_bound (row : list Z) (c : Z) :
  Forall (fun c => (0 <= c)%Z) row -> c ∈ row -> (c <= row_sum row)%Z.
Proof.
  induction 1 as [|d row Hd Hrow IH]; intros Hc; [by apply elem_of_nil in Hc|].
  assert (0 <= row_sum row)%Z as Hs.
  { clear -Hrow. induction Hrow; simpl; lia. }
  apply elem_of_cons in Hc as [->|Hc]; simpl; [lia|]. specialize (IH Hc). lia.
Qed.

(** X8.  Every count in the table built by [NewPresampledResampler] lies
    between 0 and [numValues], so a count never leaves the range of [int]. *)
Theorem presampled_counts_bounded `{P : Platform} `{!PlatformSpec P}
    (a : Aggregator) (iterations numValues : Z) (x : PresampledResampler.t) :
  (0 <= iterations)%Z -> (0 <= numValues)%Z ->
  NewPresampledResampler a iterations numValues = Ok x ->
  forall row c, row ∈ PresampledResampler.samples x -> c ∈ row ->
    (0 <= c <= numValues)%Z.
Proof.
  intros Hit Hnv Hx row c Hrow Hc.
  destruct (NewPresampledResampler_ok a iterations numValues Hit Hnv)
    as (x' & Hx' & [_ Hrows] & _).
  assert (x' = x) by congruence. subst x'.
  rewrite Forall_forall in Hrows. destruct (Hrows row) as (_ & Hpos & Hsum).
  { by apply list_elem_of_In. }
  split.
  - rewrite Forall_forall in Hpos. apply Hpos. by apply list_elem_of_In.
  - rewrite <- Hsum. by apply row_sum_bound.
Qed.

Lemma presampled_counts_bounded_witness :
  Forall (fun row => Forall (fun c => (0 <= c <= 5)%Z) row)
    (PresampledResampler.samples (sample_presampled NewSumAggregator 3 5)).
Proof.
  assert (Hx : NewPresampledResampler (H := sample_platform) NewSumAggregator 3 5
               = Ok (sample_presampled NewSumAggregator 3 5)) by (vm_compute; reflexivity).
  apply Forall_forall. intros row Hrow. apply Forall_forall. intros c Hc.
  apply (@presampled_counts_bounded sample_platform sample_platform_spec
           NewSumAggregator 3 5 (sample_presampled NewSumAggregator 3 5)
           ltac:(lia) ltac:(lia) Hx row c).
  - by apply list_elem_of_In.
  - by apply list_elem_of_In.
Defined.

Lemma PresampledResampler_fresh_eta (x : PresampledResampler.t) :
  PresampledResampler.sampleAggregates x = [] ->
  {| PresampledResampler.aggregator := PresampledResampler.aggregator x;
     PresampledResampler.iterations := PresampledResampler.iterations x;
     PresampledResampler.sampleAggregates := [];
     PresampledResampler.samples := PresampledResampler.samples x |} = x.
Proof. destruct x; simpl; intros ->; reflexivity. Qed.

(** X9.  A [PresampledResampler] draws nothing after its construction:
    [Resample], [Reset], [Resample] again on the same values leaves the
    collection the first [Resample] left. *)
Theorem PresampledResampler_Reset_repeats `{P : Platform}
    (x : PresampledResampler.t) (h : heap) (values : slice) :
  values < length h ->
  PresampledResampler.sampleAggregates x = [] ->
  let o1 := PresampledResampler.Resample values (x, h) in
  let o2 := PresampledResampler.Resample values
              ((PresampledResampler.Reset o1.2.1).2, o1.2.2) in
  o1.1 = Ok tt ->
  o2.1 = Ok tt
  /\ PresampledResampler.sampleAggregates o2.2.1
     = PresampledResampler.sampleAggregates o1.2.1.
Proof.
  intros Hv Hnil o1 o2 Hok.
  pose proof (PresampledResampler_Resample_post values x h) as Hpost.
  pose proof (PresampledResampler_Resample_frame values x h) as Hframe.
  unfold wp in Hpost, Hframe. fold o1 in Hpost, Hframe. rewrite Hok in Hpost.
  simpl in Hpost. destruct Hpost as (_ & Hi & Ha & Hs).
  assert ((PresampledResampler.Reset o1.2.1).2 = x) as Hx.
  { unfold PresampledResampler.Reset, modify, PresampledResampler.set_sampleAggregates.
    simpl. rewrite Hi, Ha, Hs. by apply PresampledResampler_fresh_eta. }
  assert (values < length o1.2.2 /\ deref o1.2.2 values = deref h values) as [Hv' Hd].
  { split.
    - apply (f_equal length) in Hframe. rewrite length_take in Hframe. lia.
    - unfold deref. f_equal.
      transitivity (take (length h) o1.2.2 !! values);
        [symmetry; by apply lookup_take_lt | by rewrite Hframe]. }
  destruct (PresampledResampler_Resample_rel values values x o1.2.2 h Hv' Hv Hd)
    as [Hres Hst].
  subst o2. rewrite Hx. fold o1 in Hres, Hst. rewrite Hres, Hst. done.
Qed.

Lemma PresampledResampler_Reset_repeats_witness :
  PresampledResampler.sampleAggregates
    (PresampledResampler.Resample (H := sample_platform) 0%nat
       ((PresampledResampler.Reset
           (PresampledResampler.Resample (H := sample_platform) 0%nat
              (sample_presampled NewSumAggregator 3 5, sample_heap)).2.1).2,
        (PresampledResampler.Resample (H := sample_platform) 0%nat
           (sample_presampled NewSumAggregator 3 5, sample_heap)).2.2)).2.1
  = PresampledResampler.sampleAggregates
      (PresampledResampler.Resample (H := sample_platform) 0%nat
         (sample_presampled NewSumAggregator 3 5, sample_heap)).2.1.
Proof.
  assert (H1 : 0 < length sample_heap) by (vm_compute; lia).
  assert (H2 : PresampledResampler.sampleAggregates
                 (sample_presampled NewSumAggregator 3 5) = [])
    by (vm_compute; reflexivity).
  assert (H3 : (PresampledResampler.Resample (H := sample_platform) 0%nat
                  (sample_presampled NewSumAggregator 3 5, sample_heap)).1 = Ok tt)
    by (vm_compute; reflexivity).
  pose proof (@PresampledResampler_Reset_repeats sample_platform
                (sample_presampled NewSumAggregator 3 5) sample_heap 0%nat H1 H2) as H.
  cbv zeta in H. exact (proj2 (H H3)).
Defined.

(** X10.  With exactly one collected value, [quantile] returns it for every
    finite [q], inside [0, 1] or not: [q * float64(0)] is a zero. *)
Theorem quantile_single `{P : Platform} (v q : float64) :
  PrimFloat.is_finite q = true -> quantile [v] q = Ok v.
Proof.
  intros Hq. unfold quantile. cbn [length Z.of_nat Pos.of_succ_nat Z.eqb].
  change (1 - 1)%Z with 0%Z. rewrite (int_of_float64_mul_zero q Hq). done.
Qed.

Lemma quantile_single_witness :
  quantile (H := sample_platform) [10]%float 8 = Ok 10%float.
Proof.
  apply (@quantile_single sample_platform 10%float 8%float).
  vm_compute. reflexivity.
Defined.

(** X11.  [quantile] does not check [q] against [0, 1]: with at least two
    values (and fewer than 2^52), [q = 2] indexes at [2 * (n - 1)], past the
    end, and [q = -1] at [-(n - 1)], before the start; both panic with an
    index out of range. *)
Theorem quantile_outside_unit_interval `{P : Platform} (vals : list float64) :
  (2 <= Z.of_nat (length vals) <= 2 ^ 52)%Z ->
  quantile vals 2 = Panic IndexOutOfRange
  /\ quantile vals (-1) = Panic IndexOutOfRange.
Proof.
  intros Hlen. unfold quantile.
  destruct (Z.eqb_spec (Z.of_nat (length vals)) 0) as [Hz|_]; [lia|].
  assert (2 ^ 52 < 2 ^ 53)%Z as H52 by (apply Z.pow_lt_mono_r; lia).
  split.
  - rewrite int_of_float64_double by lia. apply index_ge. lia.
  - rewrite int_of_float64_negate by lia. unfold index.
    by destruct (Z.leb_spec 0 (- (Z.of_nat (length vals) - 1))); [lia|].
Qed.

Lemma quantile_outside_unit_interval_witness :
  quantile (H := sample_platform) [10; 20; 30]%float 2 = Panic IndexOutOfRange
  /\ quantile (H := sample_platform) [10; 20; 30]%float (-1) = Panic IndexOutOfRange.
Proof.
  apply (@quantile_outside_unit_interval sample_platform [10; 20; 30]%float).
  vm_compute. split; discriminate.
Defined.

Lemma aggregate_each_elem (a : Aggregator) (scratches : list (list float64)) stats v :
  aggregate_each a scratches = Ok stats -> v ∈ stats ->
  exists s, s ∈ scratches /\ (Aggregate a s).1 = Ok v.
Proof.
  revert stats. induction scratches as [|s scratches IH]; intros stats; simpl.
  - intros [= <-] Hv. by apply elem_of_nil in Hv.
  - destruct (Aggregate a s).1 as [x|p] eqn:Ex; [|done].
    destruct (aggregate_each a scratches) as [rest|p]; [|done].
    intros [= <-] Hv. apply elem_of_cons in Hv as [->|Hv].
    + exists s. split; [left|done].
    + destruct (IH rest eq_refl Hv) as (s' & Hs' & Ha). exists s'. split; [by right|done].
Qed.

Lemma aggregate_each_length (a : Aggregator) (scratches : list (list float64)) stats :
  aggregate_each a scratches = Ok stats -> length stats = length scratches.
Proof.
  revert stats. induction scratches as [|s scratches IH]; intros stats; simpl.
  - by intros [= <-].
  - destruct (Aggregate a s).1 as [x|p]; [|done].
    destruct (aggregate_each a scratches) as [rest|p]; [|done].
    intros [= <-]. simpl. by rewrite (IH rest).
Qed.

(** X12.  A [BasicResampler] from [NewBasicResampler], after one [Resample]
    of a non-empty slice, holds [iterations] statistics, and [Quantile] with
    a [q] between 0 and 1 returns one of them: the aggregate of as many
    elements as [values] has, each taken from [values]. *)
Theorem BasicResampler_Resample_then_Quantile `{P : Platform} `{!PlatformSpec P}
    (a : Aggregator) (iterations : Z) (h : heap) (values : slice) (q : float64) :
  (0 < iterations <= 2 ^ 53)%Z ->
  values < length h -> deref h values <> [] ->
  keeps_length a -> total_on a (length (deref h values)) ->
  (0 <=? q)%float = true -> (q <=? 1)%float = true ->
  let o := BasicResampler.Resample values (NewBasicResampler a iterations, h) in
  o.1 = Ok tt
  /\ Z.of_nat (length (BasicResampler.sampleAggregates o.2.1)) = iterations
  /\ exists v, BasicResampler.Quantile o.2.1 q = Ok v
               /\ resample_of a (deref h values) v.
Proof.
  intros Hit Hv Hne Hkeep Htot H0 H1 o.
  destruct (BasicResampler_Resample_total (NewBasicResampler a iterations) h values
              Hv Hne Hkeep Htot) as (Hok & (stats & Hlen & Hst & Hsa) & _).
  fold o in Hok, Hsa. simpl in Hlen, Hst, Hsa.
  pose proof (Float64s_Permutation stats) as Hp.
  assert (Z.of_nat (length (BasicResampler.sampleAggregates o.2.1)) = iterations) as Hl.
  { rewrite Hsa, Hp, Hlen. lia. }
  split; [done|]. split; [done|].
  destruct (quantile_elem (BasicResampler.sampleAggregates o.2.1) q) as (v & Hq & Hin);
    try done.
  - intros Hnil. rewrite Hnil in Hl. simpl in Hl. lia.
  - lia.
  - exists v. split; [done|]. rewrite Hsa, Hp in Hin.
    rewrite Forall_forall in Hst. apply Hst. by apply list_elem_of_In.
Qed.

(** X13.  A [PresampledResampler] from [NewPresampledResampler], after one
    [Resample] of [numValues] values, holds [iterations] statistics, and
    [Quantile] with a [q] between 0 and 1 returns one of them: the aggregate
    of the values scaled by one row of the table. *)
Theorem PresampledResampler_Resample_then_Quantile `{P : Platform} `{!PlatformSpec P}
    (a : Aggregator) (iterations numValues : Z) (x : PresampledResampler.t)
    (h : heap) (values : slice) (q : float64) :
  (0 < iterations <= 2 ^ 53)%Z ->
  NewPresampledResampler a iterations numValues = Ok x ->
  values < length h -> Z.of_nat (length (deref h values)) = numValues ->
  keeps_length a -> total_on a (length (deref h values)) ->
  (0 <=? q)%float = true -> (q <=? 1)%float = true ->
  let o := PresampledResampler.Resample values (x, h) in
  o.1 = Ok tt
  /\ Z.of_nat (length (PresampledResampler.sampleAggregates o.2.1)) = iterations
  /\ exists v row, PresampledResampler.Quantile o.2.1 q = Ok v
       /\ row ∈ PresampledResampler.samples x
       /\ (Aggregate a (scaled (deref h values) row)).1 = Ok v.
Proof.
  intros Hit Hx Hv Hnv Hkeep Htot H0 H1 o.
  destruct (NewPresampledResampler_ok a iterations numValues ltac:(lia) ltac:(lia))
    as (x' & Hx' & [Hrows Hrow] & Ha & Hi & Hsa).
  assert (x' = x) by congruence. subst x'.
  assert (Forall (fun row => length (deref h values) <= length row)
            (PresampledResampler.samples x)) as Hcover.
  { clear -Hrow Hnv. induction Hrow as [|row rows [Hl _] _ IH]; constructor; [lia|done]. }
  rewrite <- Ha in Hkeep, Htot. rewrite <- Hi in Hrows.
  pose proof (PresampledResampler_Resample_exact values x h Hv Hrows Hcover Hkeep) as Hex.
  cbv zeta in Hex. fold o in Hex. unfold PresampledResampler_Resample_spec in Hex.
  destruct (aggregate_each_total (PresampledResampler.aggregator x) (length (deref h values))
              (map (scaled (deref h values)) (PresampledResampler.samples x)) Htot)
    as [stats Hstats].
  { apply Forall_map. clear -Hcover. induction Hcover; constructor; [|done].
    simpl. unfold scaled. rewrite length_zip_with. lia. }
  rewrite Hstats, Hsa in Hex. destruct Hex as (l' & Ho). rewrite Ho. simpl.
  pose proof (Float64s_Permutation stats) as Hp.
  pose proof (aggregate_each_length _ _ _ Hstats) as Hlen. rewrite length_map in Hlen.
  assert (Z.of_nat (length (Float64s stats)) = iterations) as Hl.
  { rewrite Hp, Hlen. lia. }
  split; [done|]. split; [done|].
  unfold PresampledResampler.Quantile. simpl.
  destruct (quantile_elem (Float64s stats) q) as (v & Hq & Hin); try done.
  - intros Hnil. rewrite Hnil in Hl. simpl in Hl. lia.
  - lia.
  - rewrite Hp in Hin.
    destruct (aggregate_each_elem _ _ _ _ Hstats Hin) as (s & Hs & Hag).
    apply list_elem_of_fmap in Hs as (row & -> & Hr).
    exists v, row. rewrite <- Ha. done.
Qed.

Lemma BasicResampler_Resample_then_Quantile_witness :
  let o := BasicResampler.Resample (H := sample_platform) 0%nat
             (NewBasicResampler NewSumAggregator 3, sample_heap) in
  o.1 = Ok tt
  /\ Z.of_nat (length (BasicResampler.sampleAggregates o.2.1)) = 3%Z
  /\ exists v, BasicResampler.Quantile o.2.1 0.5 = Ok v
               /\ resample_of NewSumAggregator (deref sample_heap 0) v.
Proof.
  assert (Hit : (0 < 3 <= 2 ^ 53)%Z) by (split; [lia|vm_compute; discriminate]).
  assert (H1 : 0 < length sample_heap) by (vm_compute; lia).
  assert (H2 : deref sample_heap 0 <> []) by discriminate.
  assert (H3 : keeps_length NewSumAggregator) by (intros l; reflexivity).
  assert (H4 : total_on NewSumAggregator (length (deref sample_heap 0)))
    by apply total_on_Sum.
  assert (H5 : (0 <=? 0.5)%float = true) by (vm_compute; reflexivity).
  assert (H6 : (0.5 <=? 1)%float = true) by (vm_compute; reflexivity).
  pose proof (@BasicResampler_Resample_then_Quantile sample_platform sample_platform_spec
                NewSumAggregator 3 sample_heap 0%nat 0.5%float Hit H1 H2 H3 H4 H5 H6) as H.
  exact H.
Defined.

Lemma PresampledResampler_Resample_then_Quantile_witness :
  let x := sample_presampled NewSumAggregator 3 5 in
  let o := PresampledResampler.Resample (H := sample_platform) 0%nat (x, sample_heap) in
  o.1 = Ok tt
  /\ Z.of_nat (length (PresampledResampler.sampleAggregates o.2.1)) = 3%Z
  /\ exists v row, PresampledResampler.Quantile (H := sample_platform) o.2.1 0.5 = Ok v
       /\ row ∈ PresampledResampler.samples x
       /\ (Aggregate NewSumAggregator (scaled (deref sample_heap 0) row)).1 = Ok v.
Proof.
  assert (Hit : (0 < 3 <= 2 ^ 53)%Z) by (split; [lia|vm_compute; discriminate]).
  assert (Hx : NewPresampledResampler (H := sample_platform) NewSumAggregator 3 5
               = Ok (sample_presampled NewSumAggregator 3 5)) by (vm_compute; reflexivity).
  assert (H1 : 0 < length sample_heap) by (vm_compute; lia).
  assert (H2 : Z.of_nat (length (deref sample_heap 0)) = 5%Z) by reflexivity.
  assert (H3 : keeps_length NewSumAggregator) by (intros l; reflexivity).
  assert (H4 : total_on NewSumAggregator (length (deref sample_heap 0)))
    by apply total_on_Sum.
  assert (H5 : (0 <=? 0.5)%float = true) by (vm_compute; reflexivity).
  assert (H6 : (0.5 <=? 1)%float = true) by (vm_compute; reflexivity).
  pose proof (@PresampledResampler_Resample_then_Quantile sample_platform
                sample_platform_spec NewSumAggregator 3 5
                (sample_presampled NewSumAggregator 3 5) sample_heap 0%nat 0.5%float
                Hit Hx H1 H2 H3 H4 H5 H6) as H.
  exact H.
Defined.

(** ** The earlier Resampler against the BasicResampler *)

Section Earlier.
Context `{P : Platform}.
Variable it : Z.

Lemma rel_as_basic_step {A} (m1 : M (Resampler.t * list (list float64)) A)
    (m2 : M (BasicResampler.t * list (list float64)) A) :
  (forall x h, m2 (BasicResampler_of it x, h)
               = ((m1 (x, h)).1, (BasicResampler_of it (m1 (x, h)).2.1, (m1 (x, h)).2.2))) ->
  forall s1 s2, as_basic it s1 s2 -> rel (as_basic it) m1 m2 s1 s2.
Proof.
  intros Hm [x h] s2 ->. unfold rel, as_basic. simpl. rewrite Hm. done.
Qed.

Lemma Resampler_Resample_as_basic (values : slice) s1 s2 :
  as_basic it s1 s2 ->
  rel (as_basic it) (Resampler.Resample values it) (BasicResampler.Resample values) s1 s2.
Proof.
  intros Hs. unfold Resampler.Resample, BasicResampler.Resample.
  apply rel_bind; [apply rel_as_basic_step; [done|done]|]. intros n s1' s2' Hs'.
  apply rel_bind.
  { apply rel_as_basic_step; [|done]. intros x h. unfold make. simpl.
    by destruct (n <? 0)%Z. }
  clear. intros scratch s1 s2 Hs.
  assert (forall {B} (k : Z -> M (BasicResampler.t * list (list float64)) B) m1,
            rel (as_basic it) m1 (k it) s1 s2 ->
            rel (as_basic it) m1 (bind (on_self (gets BasicResampler.iterations)) k) s1 s2)
    as Hget.
  { intros B k m1. unfold rel, bind, on_self, gets. red in Hs. subst s2. done. }
  apply Hget. apply rel_bind.
  - apply rel_for_range; [done|]. clear. intros _ [] s1 s2 Hs.
    apply rel_bind.
    { apply rel_for_range; [done|]. clear. intros i [] s1 s2 Hs.
      apply rel_bind.
      { apply rel_as_basic_step; [|done]. intros x h.
        unfold on_self, Resampler.r_Int63, BasicResampler.r_Int63. simpl.
        by destruct (Int63 (Resampler.r x)). }
      intros k s1' s2' Hs'. apply rel_bind; [by apply rel_as_basic_step|].
      clear. intros k s1 s2 Hs. apply rel_bind; [by apply rel_as_basic_step|].
      clear. intros v s1 s2 Hs. apply rel_as_basic_step; [|done].
      intros x h. unfold store. simpl. by destruct (assign _ _ _). }
    clear. intros [] s1 s2 Hs. apply rel_bind; [by apply rel_as_basic_step|].
    clear. intros a s1 s2 Hs. apply rel_bind.
    { apply rel_as_basic_step; [|done]. intros x h. unfold on_slice. simpl.
      by destruct (Aggregate a _). }
    clear. intros x0 s1 s2 Hs. by apply rel_as_basic_step.
  - clear. intros [] s1 s2 Hs. by apply rel_as_basic_step.
Qed.

End Earlier.

(** X14.  The earlier [Resampler.Resample(values, iterations)] does what
    [BasicResampler.Resample(values)] does on a resampler with the same
    aggregator, collection and source and that iteration count: the same
    outcome (return or panic), the same collection, source and store. *)
Theorem Resampler_Resample_is_BasicResampler_Resample `{P : Platform}
    (x : Resampler.t) (h : heap) (values : slice) (iterations : Z) :
  let o := Resampler.Resample values iterations (x, h) in
  let o' := BasicResampler.Resample values (BasicResampler_of iterations x, h) in
  o'.1 = o.1 /\ o'.2.1 = BasicResampler_of iterations o.2.1 /\ o'.2.2 = o.2.2.
Proof.
  intros o o'.
  destruct (Resampler_Resample_as_basic iterations values (x, h)
              (BasicResampler_of iterations x, h) eq_refl) as [Hres Hst].
  fold o o' in Hres, Hst. red in Hst. rewrite Hst. done.
Qed.

(** X15.  The earlier [Resampler.Quantile] has no guard for an empty
    collection: before any [Resample] it panics with an index out of range
    for every [q]; on a non-empty collection it is [quantile]. *)
Theorem Resampler_Quantile_unguarded `{P : Platform} (x : Resampler.t) (q : float64) :
  (Resampler.sampleAggregates x = [] -> Resampler.Quantile x q = Panic IndexOutOfRange)
  /\ (Resampler.sampleAggregates x <> [] ->
      Resampler.Quantile x q = quantile (Resampler.sampleAggregates x) q).
Proof.
  unfold Resampler.Quantile. split.
  - intros ->. unfold index. by destruct (0 <=? _)%Z.
  - intros Hne. unfold quantile.
    destruct (Z.eqb_spec (Z.of_nat (length (Resampler.sampleAggregates x))) 0) as [Hz|_];
      [|done].
    by destruct (Resampler.sampleAggregates x).
Qed.

Lemma Resampler_Quantile_unguarded_witness :
  Resampler.Quantile (H := sample_platform) (NewResampler NewSumAggregator) 0.5
  = Panic IndexOutOfRange
  /\ Resampler.Quantile (H := sample_platform)
       (Resampler.set_sampleAggregates (fun _ => [10; 20]%float)
          (NewResampler NewSumAggregator)) 0.5
     = quantile (H := sample_platform) [10; 20]%float 0.5.
Proof.
  split.
  - destruct (@Resampler_Quantile_unguarded sample_platform
                (NewResampler NewSumAggregator) 0.5%float) as [H _].
    apply H. reflexivity.
  - destruct (@Resampler_Quantile_unguarded sample_platform
                (Resampler.set_sampleAggregates (fun _ => [10; 20]%float)
                   (NewResampler NewSumAggregator)) 0.5%float) as [_ H].
    apply H. discriminate.
Defined.

(** X16.  [NewBasicResampler] takes any iteration count, and with a count of
    zero or below [Resample] draws nothing and appends nothing, whatever the
    values: it returns, the source is where it was, and the collection has
    only been sorted. *)
Theorem BasicResampler_Resample_no_iteration `{P : Platform}
    (x : BasicResampler.t) (h : heap) (values : slice) :
  (BasicResampler.iterations x <= 0)%Z ->
  let o := BasicResampler.Resample values (x, h) in
  o.1 = Ok tt
  /\ o.2.1 = BasicResampler.set_sampleAggregates Float64s x
  /\ BasicResampler.r o.2.1 = BasicResampler.r x.
Proof.
  intros Hit o. subst o. rewrite BasicResampler_Resample_unfold.
  replace (Z.to_nat (BasicResampler.iterations x)) with 0%nat by lia. done.
Qed.

Lemma BasicResampler_Resample_no_iteration_witness :
  let o := BasicResampler.Resample (H := sample_platform) 0%nat
             (NewBasicResampler NewSumAggregator (-3), sample_heap) in
  o.1 = Ok tt
  /\ o.2.1 = BasicResampler.set_sampleAggregates (@Float64s sample_platform)
               (NewBasicResampler NewSumAggregator (-3))
  /\ BasicResampler.r o.2.1
     = BasicResampler.r (NewBasicResampler (H := sample_platform) NewSumAggregator (-3)).
Proof.
  assert (Hit : (BasicResampler.iterations
                   (NewBasicResampler (H := sample_platform) NewSumAggregator (-3)) <= 0)%Z)
    by (simpl; lia).
  pose proof (@BasicResampler_Resample_no_iteration sample_platform
                (NewBasicResampler NewSumAggregator (-3)) sample_heap 0%nat Hit) as H.
  exact H.
Defined.
